(** * mfe-store: the store engine of [store.ts]

    A shallow embedding of [createStore] (cache, listener registry, lazily
    opened IndexedDB connection, BroadcastChannel) and of the handler run on
    inbound channel messages, followed by the properties of the read / write /
    notify protocol.

    Modelling conventions.
    - Every [async] function is run to completion: its [await]s on IndexedDB
      are resolved in place and no other task is interleaved at them.
    - The collaborators are part of the state: the object store content
      ([idb]), a script of outcomes for the IndexedDB requests still to come
      ([idb_faults], [true] = the request fires [onerror]), and the closed
      flag of the BroadcastChannel ([postMessage] throws on a closed channel).
    - Listeners are references ([nat]); what a call of a listener does to the
      store is not modelled (no re-entrant call), only whether it throws.
    - Everything the store does to the outside is recorded, in order, in a
      trace of [Event]s.
    - [subscribeToKey] registers on [window]; of [window] the model keeps the
      handlers registered by [subscribeToKey], and hands them the
      [CustomEvent]s of a trace. *)

From Stdlib Require Import ZArith.
From stdpp Require Import base option gmap strings list.

(* ------------------------------------------------------------------------ *)
(** ** Values, messages, events *)

(** Stored values.  [VUndefined] is JavaScript's [undefined], which the code
    tests for explicitly. *)
Inductive JsValue : Type :=
| VUndefined
| VNull
| VBool (b : bool)
| VNum (n : Z)
| VStr (s : string).

#[global] Instance JsValue_eq_dec : EqDecision JsValue.
Proof. solve_decision. Defined.

(** [Listener<T>]: a callback, compared by reference. *)
Definition Listener : Type := nat.

(** [Validator<T>]: returns normally ([None]) or throws an error with a
    message ([Some msg]). *)
Definition Validator : Type := JsValue -> option string.

(** [BroadcastMessage.type]. *)
Inductive MsgType : Type := TSet | TDelete | TClear.

#[global] Instance MsgType_eq_dec : EqDecision MsgType.
Proof. solve_decision. Defined.

(** [interface BroadcastMessage]: [key], [value] and [oldValue] are optional;
    an absent [value] or [oldValue] reads as [undefined] when the handler
    destructures the message. *)
Record BroadcastMessage : Type := mkMsg {
  msg_type : MsgType;
  msg_key : option string;
  msg_value : JsValue;
  msg_oldValue : JsValue;
}.

#[global] Instance BroadcastMessage_eq_dec : EqDecision BroadcastMessage.
Proof. solve_decision. Defined.

(** The three messages the store posts. *)
Definition SetMsg (key : string) (value oldValue : JsValue) : BroadcastMessage :=
  mkMsg TSet (Some key) value oldValue.
Definition DeleteMsg (key : string) (oldValue : JsValue) : BroadcastMessage :=
  mkMsg TDelete (Some key) VUndefined oldValue.
Definition ClearMsg : BroadcastMessage :=
  mkMsg TClear None VUndefined VUndefined.

(** What a rejected promise (or a throwing handler) carries, by origin. *)
Inductive StoreError : Type :=
| ValidationError (msg : string)   (* thrown by the validator of the key *)
| PersistenceError                 (* [request.onerror]: [reject(request.error)] *)
| ListenerError (l : Listener)     (* thrown by a local listener *)
| TransportError.                  (* thrown by [channel.postMessage] *)

(** Observable effects, in the order they happen. *)
Inductive Event : Type :=
| EvDbOpen                                          (* [indexedDB.open] *)
| EvDbGet (key : string)                            (* [store.get(key)] *)
| EvDbPut (key : string) (value : JsValue)          (* [store.put(value, key)] *)
| EvDbDelete (key : string)                         (* [store.delete(key)] *)
| EvDbGetAll                                        (* [store.openCursor()] *)
| EvDbClear                                         (* [store.clear()] *)
| EvListener (l : Listener) (value oldValue : JsValue)       (* [listener(value, oldValue)] *)
| EvDispatch (eventName : string) (value oldValue : JsValue) (* [window.dispatchEvent] *)
| EvPost (m : BroadcastMessage).                    (* [channel.postMessage(m)] *)

#[global] Instance Event_eq_dec : EqDecision Event.
Proof. solve_decision. Defined.

(** Events that reach the Persistent Store. *)
Definition is_storage_event (e : Event) : bool :=
  match e with
  | EvDbOpen | EvDbGet _ | EvDbPut _ _ | EvDbDelete _ | EvDbGetAll | EvDbClear => true
  | _ => false
  end.

(** Events that stay in the page: listener calls and [CustomEvent]s. *)
Definition is_local_notification (e : Event) : bool :=
  match e with
  | EvListener _ _ _ | EvDispatch _ _ _ => true
  | _ => false
  end.

Definition is_post (e : Event) : bool :=
  match e with
  | EvPost _ => true
  | _ => false
  end.

(* ------------------------------------------------------------------------ *)
(** ** JavaScript's [Map] and [Set], in insertion order *)

Module JsSet.
(** [Set.prototype.add]: a value already present keeps its place. *)
Definition add (x : Listener) (xs : list Listener) : list Listener :=
  if bool_decide (x ∈ xs) then xs else xs ++ [x].

(** [Set.prototype.delete]. *)
Definition remove (x : Listener) (xs : list Listener) : list Listener :=
  filter (λ y, y ≠ x) xs.
End JsSet.

Module JsMap.
Section Defs.
Context {V : Type}.

Fixpoint get (k : string) (m : list (string * V)) : option V :=
  match m with
  | [] => None
  | (k', v) :: rest => if bool_decide (k = k') then Some v else get k rest
  end.

Definition has (k : string) (m : list (string * V)) : bool :=
  bool_decide (is_Some (get k m)).

(** [Map.prototype.set]: an existing key keeps its place, a new one goes
    last.  Also used for an in-place change of the object stored at [k]. *)
Fixpoint set (k : string) (v : V) (m : list (string * V)) : list (string * V) :=
  match m with
  | [] => [(k, v)]
  | (k', v') :: rest =>
      if bool_decide (k = k') then (k, v) :: rest else (k', v') :: set k v rest
  end.

(** [Map.prototype.delete]. *)
Fixpoint remove (k : string) (m : list (string * V)) : list (string * V) :=
  match m with
  | [] => []
  | (k', v') :: rest =>
      if bool_decide (k = k') then remove k rest else (k', v') :: remove k rest
  end.

Definition keys (m : list (string * V)) : list string := m.*1.
End Defs.
End JsMap.

(* ------------------------------------------------------------------------ *)
(** ** State *)

(** [StoreOptions]; every field is optional. *)
Record StoreOptions : Type := mkOptions {
  opt_dbName : option string;
  opt_storeName : option string;
  opt_channelName : option string;
  opt_validators : option (gmap string Validator);
}.

(** The destructuring defaults of [createStore]. *)
Definition dbName (o : StoreOptions) : string := default "mfe-store"%string (opt_dbName o).
Definition storeName (o : StoreOptions) : string := default "store"%string (opt_storeName o).
Definition channelName (o : StoreOptions) : string := default (dbName o) (opt_channelName o).

(** [validators?.[key]]. *)
Definition validator_for (o : StoreOptions) (key : string) : option Validator :=
  opt_validators o ≫= (λ vs, vs !! key).

(** The closure state of one store ([cache], [listeners], [dbPromise]) and
    the collaborators it talks to. *)
Record State : Type := mkState {
  cache : gmap string JsValue;                   (* [new Map()] *)
  listeners : list (string * list Listener);     (* [new Map()] of [Set]s *)
  dbPromise : option bool;                       (* [null], or settled: [true] = resolved *)
  channel_closed : bool;                         (* BroadcastChannel closed flag *)
  idb : gmap string JsValue;                     (* content of the object store *)
  idb_faults : list bool;                        (* outcomes of the requests to come *)
}.

Definition with_cache (f : gmap string JsValue -> gmap string JsValue) (s : State) : State :=
  mkState (f (cache s)) (listeners s) (dbPromise s) (channel_closed s) (idb s) (idb_faults s).
Definition with_listeners (f : list (string * list Listener) -> list (string * list Listener))
    (s : State) : State :=
  mkState (cache s) (f (listeners s)) (dbPromise s) (channel_closed s) (idb s) (idb_faults s).
Definition with_dbPromise (p : option bool) (s : State) : State :=
  mkState (cache s) (listeners s) p (channel_closed s) (idb s) (idb_faults s).
Definition with_closed (c : bool) (s : State) : State :=
  mkState (cache s) (listeners s) (dbPromise s) c (idb s) (idb_faults s).
Definition with_idb (f : gmap string JsValue -> gmap string JsValue) (s : State) : State :=
  mkState (cache s) (listeners s) (dbPromise s) (channel_closed s) (f (idb s)) (idb_faults s).
Definition with_faults (fs : list bool) (s : State) : State :=
  mkState (cache s) (listeners s) (dbPromise s) (channel_closed s) (idb s) fs.

(** The state [createStore] starts from: empty [cache] and [listeners],
    [dbPromise = null], an open channel; [db] is what the object store holds
    at that time and [faults] what its next requests will run into. *)
Definition createStore (db : gmap string JsValue) (faults : list bool) : State :=
  mkState ∅ [] None false db faults.

(** [cache.get(key)]: [undefined] for a key that is not there. *)
Definition cache_get (key : string) (s : State) : JsValue :=
  default VUndefined (cache s !! key).

(** [cache.has(key)]. *)
Definition cache_has (key : string) (s : State) : bool :=
  bool_decide (is_Some (cache s !! key)).

(* ------------------------------------------------------------------------ *)
(** ** The monad of store operations: state, trace, exceptions *)

Inductive Result (A : Type) : Type :=
| Ok (a : A)
| Throw (e : StoreError).
Arguments Ok {A} a.
Arguments Throw {A} e.

Definition M (A : Type) : Type := State -> Result A * State * list Event.

Definition ret {A} (a : A) : M A := λ s, (Ok a, s, []).

Definition bind {A B} (m : M A) (f : A -> M B) : M B := λ s,
  match m s with
  | (Ok a, s1, t1) => let '(r, s2, t2) := f a s1 in (r, s2, t1 ++ t2)
  | (Throw e, s1, t1) => (Throw e, s1, t1)
  end.

Definition throw {A} (e : StoreError) : M A := λ s, (Throw e, s, []).
Definition emit (e : Event) : M unit := λ s, (Ok tt, s, [e]).
Definition gets {A} (f : State -> A) : M A := λ s, (Ok (f s), s, []).
Definition modify (f : State -> State) : M unit := λ s, (Ok tt, f s, []).

Notation "'let*' x ':=' m 'in' k" := (bind m (λ x, k))
  (at level 10, x name, m at level 100, k at level 200, only parsing).
Notation "m ;; k" := (bind m (λ _, k))
  (at level 100, right associativity, only parsing).

(** [xs.forEach(f)]: stops at the first call that throws. *)
Fixpoint forEach {A} (f : A -> M unit) (xs : list A) : M unit :=
  match xs with
  | [] => ret tt
  | x :: rest => f x ;; forEach f rest
  end.

(* ------------------------------------------------------------------------ *)
(** ** IndexedDB helpers *)

(** The outcome of the next IndexedDB request; an exhausted script means the
    request succeeds. *)
Definition next_fault : M bool := λ s,
  match idb_faults s with
  | [] => (Ok false, s, [])
  | f :: rest => (Ok f, with_faults rest s, [])
  end.

(** One request on the object store: [onerror] rejects, [onsuccess]
    resolves. *)
Definition request (e : Event) : M unit :=
  emit e ;;
  let* failed := next_fault in
  if failed : bool then throw PersistenceError else ret tt.

(** [openDatabase] hands back a promise at once; here, how that promise
    settles ([true] = resolved with the connection). *)
Definition openDatabase : M bool :=
  emit EvDbOpen ;;
  let* failed := next_fault in
  ret (negb failed).

(** [await] on a settled promise. *)
Definition await (settled : bool) : M unit :=
  if settled then ret tt else throw PersistenceError.

Definition dbGet (key : string) : M JsValue :=
  request (EvDbGet key) ;;
  gets (λ s, default VUndefined (idb s !! key)).

Definition dbSet (key : string) (value : JsValue) : M unit :=
  request (EvDbPut key value) ;;
  modify (with_idb (insert key value)).

Definition dbDelete (key : string) : M unit :=
  request (EvDbDelete key) ;;
  modify (with_idb (delete key)).

Definition dbGetAll : M (gmap string JsValue) :=
  request EvDbGetAll ;;
  gets idb.

Definition dbClear : M unit :=
  request EvDbClear ;;
  modify (with_idb (λ _, ∅)).

(* ------------------------------------------------------------------------ *)
(** ** Event helpers *)

Definition createEventName (channelName key : string) : string :=
  ("store:" +:+ channelName +:+ ":" +:+ key)%string.

Definition emitLocalEvent (channelName key : string) (value oldValue : JsValue) : M unit :=
  emit (EvDispatch (createEventName channelName key) value oldValue).

(* ------------------------------------------------------------------------ *)
(** ** Standalone subscribe

    [subscribeToKey] talks to [window] only.  Of [window] as an event target
    the model keeps the list of registered handlers, in registration order.
    A handler is the closure [subscribeToKey] builds around a listener; each
    call builds a new one, told apart by [hid]. *)

Record Handler : Type := mkHandler {
  hid : nat;
  hlistener : Listener;
}.

#[global] Instance Handler_eq_dec : EqDecision Handler.
Proof. solve_decision. Defined.

Record Window : Type := mkWindow {
  registered : list (string * Handler);   (* event name, handler *)
  fresh : nat;                            (* identity of the next closure *)
}.

(** [window.addEventListener(eventName, handler)]: a handler already
    registered under that name is not registered again. *)
Definition addEventListener (eventName : string) (handler : Handler) (w : Window) : Window :=
  if bool_decide ((eventName, handler) ∈ registered w) then w
  else mkWindow (registered w ++ [(eventName, handler)]) (fresh w).

(** [window.removeEventListener(eventName, handler)]. *)
Definition removeEventListener (eventName : string) (handler : Handler) (w : Window) : Window :=
  mkWindow (filter (λ entry, entry ≠ (eventName, handler)) (registered w)) (fresh w).

(** [window.dispatchEvent(new CustomEvent(eventName, {detail}))]: the calls
    [listener(value, oldValue)] made by the handlers registered under
    [eventName], in registration order.  What a handler throws is reported
    and does not stop the others. *)
Definition dispatchEvent (eventName : string) (value oldValue : JsValue) (w : Window)
    : list Event :=
  (λ entry, EvListener (hlistener entry.2) value oldValue)
    <$> filter (λ entry, entry.1 = eventName) (registered w).

(** [subscribeToKey(channelName, key, listener)]: the function it returns,
    and the window it leaves. *)
Definition subscribeToKey (channelName key : string) (listener : Listener) (w : Window)
    : (Window -> Window) * Window :=
  let eventName := createEventName channelName key in
  let handler := mkHandler (fresh w) listener in
  (removeEventListener eventName handler,
   addEventListener eventName handler (mkWindow (registered w) (S (fresh w)))).


(** Every handler of the window was built before [fresh]. *)
Definition window_wf (w : Window) : Prop :=
  ∀ eventName handler, (eventName, handler) ∈ registered w -> hid handler < fresh w.

(* ------------------------------------------------------------------------ *)
(** ** Store factory *)

Section CreateStore.
Variable options : StoreOptions.
(** Whether the call [listener(value, oldValue)] throws. *)
Variable listener_throws : Listener -> JsValue -> JsValue -> bool.

(** [const db = await getDb()].  [dbPromise] keeps the promise whatever
    its outcome, so a failed open stays cached until [destroy]. *)
Definition getDb : M unit :=
  let* p := gets dbPromise in
  match p with
  | Some settled => await settled
  | None =>
      let* settled := openDatabase in
      modify (with_dbPromise (Some settled)) ;;
      await settled
  end.

(** [listener(value, oldValue)], the body of the [forEach] over the [Set]
    of a key. *)
Definition call_listener (value oldValue : JsValue) (l : Listener) : M unit :=
  emit (EvListener l value oldValue) ;;
  if listener_throws l value oldValue then throw (ListenerError l) else ret tt.

(** The listeners of [key] in insertion order, then the [CustomEvent]; a
    listener that throws ends the round before the event is dispatched. *)
Definition notifyListeners (key : string) (value oldValue : JsValue) : M unit :=
  let* keyListeners := gets (λ s, JsMap.get key (listeners s)) in
  match keyListeners with
  | Some ls => forEach (call_listener value oldValue) ls
  | None => ret tt
  end ;;
  emitLocalEvent (channelName options) key value oldValue.

(** [channel.postMessage]: throws on a closed channel. *)
Definition postMessage (m : BroadcastMessage) : M unit :=
  let* closed := gets channel_closed in
  if closed : bool then throw TransportError else emit (EvPost m).

(** [listeners.forEach((_, key) => notifyListeners(key, undefined, undefined))],
    as [clear] and the handler of inbound messages both have it. *)
Definition notifyAll : M unit :=
  let* ks := gets (λ s, JsMap.keys (listeners s)) in
  forEach (λ key, notifyListeners key VUndefined VUndefined) ks.

(** [channel.onmessage], applied to [event.data].  The [if / else if] chain
    of the handler, by [type] and [key]: the first branch also wants
    [value !== undefined], the last one does not look at [key]. *)
Definition onmessage (data : BroadcastMessage) : M unit :=
  let type := msg_type data in
  let key := msg_key data in
  let value := msg_value data in
  let oldValue := msg_oldValue data in
  match type, key with
  | TSet, Some key =>
      if bool_decide (value ≠ VUndefined) then
        modify (with_cache (insert key value)) ;;
        notifyListeners key value oldValue
      else ret tt
  | TDelete, Some key =>
      let* old := gets (cache_get key) in
      modify (with_cache (delete key)) ;;
      notifyListeners key VUndefined old
  | TClear, _ =>
      modify (with_cache (λ _, ∅)) ;;
      notifyAll
  | _, None => ret tt
  end.

(** Cache first, then IndexedDB; only a value other than [undefined] is
    written to the cache. *)
Definition get (key : string) : M JsValue :=
  let* cached := gets (cache_has key) in
  if cached : bool then gets (cache_get key)
  else
    getDb ;;
    let* value := dbGet key in
    (if bool_decide (value ≠ VUndefined)
     then modify (with_cache (insert key value))
     else ret tt) ;;
    ret value.

(** Validator, cache, the two awaited storage steps, local notification,
    broadcast: the statements of [set] in their order. *)
Definition set (key : string) (value : JsValue) : M unit :=
  match validator_for options key with
  | Some validator =>
      match validator value with
      | Some msg => throw (ValidationError msg)
      | None => ret tt
      end
  | None => ret tt
  end ;;
  let* oldValue := gets (cache_get key) in
  modify (with_cache (insert key value)) ;;
  getDb ;;
  dbSet key value ;;
  notifyListeners key value oldValue ;;
  postMessage (SetMsg key value oldValue).

(** [delete] of the public interface. *)
Definition del (key : string) : M unit :=
  let* oldValue := gets (cache_get key) in
  modify (with_cache (delete key)) ;;
  getDb ;;
  dbDelete key ;;
  notifyListeners key VUndefined oldValue ;;
  postMessage (DeleteMsg key oldValue).

(** The function returned by [subscribe(key, listener)].  The [Set] stored
    under [key] is changed in place, which [JsMap.set] on a key that is there
    amounts to. *)
Definition unsubscribe (key : string) (listener : Listener) : M unit :=
  let* keyListeners := gets (λ s, JsMap.get key (listeners s)) in
  match keyListeners with
  | Some ls =>
      let ls' := JsSet.remove listener ls in
      modify (with_listeners (JsMap.set key ls')) ;;
      if bool_decide (length ls' = 0)
      then modify (with_listeners (JsMap.remove key))
      else ret tt
  | None => ret tt
  end.

(** Registers [listener] and returns the function that removes it. *)
Definition subscribe (key : string) (listener : Listener) : M (M unit) :=
  let* present := gets (λ s, JsMap.has key (listeners s)) in
  (if present : bool then ret tt
   else modify (with_listeners (JsMap.set key []))) ;;
  let* ls := gets (λ s, default [] (JsMap.get key (listeners s))) in
  modify (with_listeners (JsMap.set key (JsSet.add listener ls))) ;;
  ret (unsubscribe key listener).

(** Every entry of the object store goes into the cache, over what the
    cache had for that key. *)
Definition getAll : M (gmap string JsValue) :=
  getDb ;;
  let* all := dbGetAll in
  modify (with_cache (λ c, all ∪ c)) ;;
  ret all.

Definition clear : M unit :=
  modify (with_cache (λ _, ∅)) ;;
  getDb ;;
  dbClear ;;
  notifyAll ;;
  postMessage ClearMsg.

(** [channel.close()], both maps cleared, [dbPromise = null]; the object
    store keeps its content. *)
Definition destroy : M unit :=
  modify (with_closed true) ;;
  modify (with_listeners (λ _, [])) ;;
  modify (with_cache (λ _, ∅)) ;;
  modify (with_dbPromise None).

(* ------------------------------------------------------------------------ *)
(** ** Vocabulary of the statements *)

(** The message a validator registered for [key] throws on [value], if any. *)
Definition rejection (key : string) (value : JsValue) : option string :=
  validator_for options key ≫= (λ validator, validator value).

(** [getDb] on [s]: does the connection open (or is it open already), what
    is recorded, and the state left behind. *)
Definition db_opens (s : State) : bool :=
  match dbPromise s with
  | Some settled => settled
  | None => negb (hd false (idb_faults s))
  end.

Definition open_trace (s : State) : list Event :=
  match dbPromise s with
  | Some _ => []
  | None => [EvDbOpen]
  end.

Definition after_open (s : State) : State :=
  match dbPromise s with
  | Some _ => s
  | None => with_dbPromise (Some (db_opens s)) (with_faults (tl (idb_faults s)) s)
  end.

(** One request made on [s]. *)
Definition request_ok (s : State) : bool := negb (hd false (idb_faults s)).
Definition after_request (s : State) : State := with_faults (tl (idb_faults s)) s.

(** [getDb] followed by one request: both succeed. *)
Definition storage_ok (s : State) : bool :=
  db_opens s && request_ok (after_open s).

(** The listeners registered for [key]. *)
Definition key_listeners (key : string) (s : State) : list Listener :=
  default [] (JsMap.get key (listeners s)).

Definition subscribed (key : string) (l : Listener) (s : State) : Prop :=
  ∃ ls, JsMap.get key (listeners s) = Some ls ∧ l ∈ ls.

(** No listener of [ls] throws when called with [(value, oldValue)]. *)
Definition quiet (value oldValue : JsValue) (ls : list Listener) : bool :=
  forallb (λ l, negb (listener_throws l value oldValue)) ls.

Definition calls (value oldValue : JsValue) (ls : list Listener) : list Event :=
  (λ l, EvListener l value oldValue) <$> ls.

(** One round of notification for [key]: its listeners in registration
    order, then the [CustomEvent]. *)
Definition notification (key : string) (value oldValue : JsValue) (s : State) : list Event :=
  calls value oldValue (key_listeners key s)
  ++ [EvDispatch (createEventName (channelName options) key) value oldValue].

(** The rounds [notifyAll] goes through: one per key of the registry. *)
Definition notification_all (s : State) : list Event :=
  mjoin ((λ key, notification key VUndefined VUndefined s) <$> JsMap.keys (listeners s)).

Definition quiet_all (s : State) : bool :=
  forallb (λ key, quiet VUndefined VUndefined (key_listeners key s)) (JsMap.keys (listeners s)).

(** The registry once [listener] has been added under [key]. *)
Definition registry_with (key : string) (listener : Listener)
    (m : list (string * list Listener)) : list (string * list Listener) :=
  let m1 := if JsMap.has key m then m else JsMap.set key [] m in
  JsMap.set key (JsSet.add listener (default [] (JsMap.get key m1))) m1.

(** The registry once the function returned by [subscribe(key, listener)]
    has run. *)
Definition registry_without (key : string) (listener : Listener)
    (m : list (string * list Listener)) : list (string * list Listener) :=
  match JsMap.get key m with
  | Some ls =>
      let ls' := JsSet.remove listener ls in
      if bool_decide (length ls' = 0)
      then JsMap.remove key (JsMap.set key ls' m)
      else JsMap.set key ls' m
  | None => m
  end.

(** What an inbound message does to the cache. *)
Definition inbound_cache (data : BroadcastMessage) (c : gmap string JsValue)
    : gmap string JsValue :=
  match msg_type data, msg_key data with
  | TSet, Some key =>
      if bool_decide (msg_value data ≠ VUndefined) then <[key:=msg_value data]> c else c
  | TDelete, Some key => delete key c
  | TClear, _ => ∅
  | _, None => c
  end.

(** The notifications an inbound message leads to when no listener throws,
    and the listeners that must not throw for that. *)
Definition inbound_notification (data : BroadcastMessage) (s : State) : list Event :=
  match msg_type data, msg_key data with
  | TSet, Some key =>
      if bool_decide (msg_value data ≠ VUndefined)
      then notification key (msg_value data) (msg_oldValue data) s
      else []
  | TDelete, Some key => notification key VUndefined (cache_get key s) s
  | TClear, _ => notification_all s
  | _, None => []
  end.

Definition inbound_quiet (data : BroadcastMessage) (s : State) : bool :=
  match msg_type data, msg_key data with
  | TSet, Some key =>
      if bool_decide (msg_value data ≠ VUndefined)
      then quiet (msg_value data) (msg_oldValue data) (key_listeners key s)
      else true
  | TDelete, Some key => quiet VUndefined (cache_get key s) (key_listeners key s)
  | TClear, _ => quiet_all s
  | _, None => true
  end.

(** The shape [subscribe], the function it returns and [destroy] keep the
    registry in: one entry per key, no entry with an empty [Set], no listener
    twice in a [Set]. *)
Definition registry_wf (m : list (string * list Listener)) : Prop :=
  NoDup (JsMap.keys m) ∧ Forall (λ entry, entry.2 ≠ [] ∧ NoDup entry.2) m.

(** Storage that works: no failed open is cached and no request to come
    fails. *)
Definition healthy (s : State) : Prop :=
  dbPromise s ≠ Some false ∧ Forall (λ failed, failed = false) (idb_faults s).

(** What [destroy] leaves of a store: the object store and the script of its
    requests, behind a closed channel. *)
Definition after_destroy (s : State) : State :=
  mkState ∅ [] None true (idb s) (idb_faults s).

(** One use of the store from its page, or one message from another
    context. *)
Inductive Call : Type :=
| CGet (key : string)
| CSet (key : string) (value : JsValue)
| CDelete (key : string)
| CGetAll
| CClear
| CSubscribe (key : string) (listener : Listener)
| CUnsubscribe (key : string) (listener : Listener)
| CDestroy
| CMessage (data : BroadcastMessage).

Definition call (c : Call) : M unit :=
  match c with
  | CGet key => get key ;; ret tt
  | CSet key value => set key value
  | CDelete key => del key
  | CGetAll => getAll ;; ret tt
  | CClear => clear
  | CSubscribe key listener => subscribe key listener ;; ret tt
  | CUnsubscribe key listener => unsubscribe key listener
  | CDestroy => destroy
  | CMessage data => onmessage data
  end.

(** A sequence of calls, each run to its end before the next, the caller
    going on after a rejection: the state reached and everything done on the
    way. *)
Fixpoint run (cs : list Call) (s : State) : State * list Event :=
  match cs with
  | [] => (s, [])
  | c :: rest =>
      let '(_, s1, t1) := call c s in
      let '(s2, t2) := run rest s1 in
      (s2, t1 ++ t2)
  end.

Definition is_open (e : Event) : bool :=
  match e with EvDbOpen => true | _ => false end.

(** [m] relates, on every state, the state it starts from, what it does and
    the state it leaves by [R].  Used with relations that hold for doing
    nothing and compose along a trace. *)
Definition effect {A} (R : State -> list Event -> State -> Prop) (m : M A) : Prop :=
  ∀ s, R s (m s).2 (m s).1.2.

Class Composable (R : State -> list Event -> State -> Prop) : Prop := {
  composable_nil : ∀ s, R s [] s;
  composable_app : ∀ s t s' t' s'', R s t s' -> R s' t' s'' -> R s (t ++ t') s'';
}.

(** The state is left as it was. *)
Definition same_state : State -> list Event -> State -> Prop :=
  λ s _ s', s' = s.

(** The registry is left as it was. *)
Definition same_listeners : State -> list Event -> State -> Prop :=
  λ s _ s', listeners s' = listeners s.

(** How many times [indexedDB.open] is called along a trace, and whether
    [dbPromise] holds a promise. *)
Definition opens (t : list Event) : nat := length (filter (λ e, is_open e = true) t).
Definition opened (s : State) : nat :=
  match dbPromise s with Some _ => 1 | None => 0 end.

(** Each call of [indexedDB.open] fills [dbPromise], and nothing empties
    it. *)
Definition open_once : State -> list Event -> State -> Prop :=
  λ s t s', opens t + opened s = opened s'.

(** The registry keeps its shape. *)
Definition keeps_registry_wf : State -> list Event -> State -> Prop :=
  λ s _ s', registry_wf (listeners s) -> registry_wf (listeners s').

(** With storage that works, everything the cache holds is what the object
    store holds for that key. *)
Definition coherent (s : State) : Prop :=
  healthy s ∧ cache s ⊆ idb s.

Definition keeps_coherent : State -> list Event -> State -> Prop :=
  λ s _ s', coherent s -> coherent s'.

Definition is_destroy (c : Call) : bool :=
  match c with CDestroy => true | _ => false end.

Definition is_message (c : Call) : bool :=
  match c with CMessage _ => true | _ => false end.

Definition is_listener_call (e : Event) : bool :=
  match e with EvListener _ _ _ => true | _ => false end.

(* ------------------------------------------------------------------------ *)
(** ** A store to run the operations on

    The configuration of the validation example of the README, and a store
    that has been in use for a while. *)

Definition username_validator : Validator := λ value,
  match value with
  | VStr name =>
      if decide (String.length name < 2)
      then Some "username must be at least 2 characters"%string
      else None
  | _ => Some "username must be a string"%string
  end.

Definition age_validator : Validator := λ value,
  match value with
  | VNum n =>
      if decide (n < 0 ∨ 150 < n)%Z
      then Some "age must be between 0 and 150"%string
      else None
  | _ => Some "age must be a number"%string
  end.

Definition demo_options : StoreOptions :=
  mkOptions (Some "my-app"%string) None None
    (Some (<["username"%string := username_validator]>
             (<["age"%string := age_validator]> ∅))).

(** Listeners that never throw. *)
Definition no_throw : Listener -> JsValue -> JsValue -> bool := λ _ _ _, false.

(** [user] is cached and persisted, listeners 1 and 2 follow [user] and
    listener 3 follows [age], the connection is open. *)
Definition demo_state : State :=
  mkState (<["user"%string := VStr "Bob"]> ∅)
          [("user"%string, [1; 2]); ("age"%string, [3])]
          (Some true) false
          (<["user"%string := VStr "Bob"]> ∅)
          [].

(** The same store when its next request is going to fail. *)
Definition demo_state_failing : State := with_faults [true] demo_state.

(** The same store after [destroy()]. *)
Definition demo_state_destroyed : State :=
  mkState ∅ [] None true (<["user"%string := VStr "Bob"]> ∅) [].

(** Listener 2 throws whatever it is called with; the others do not. *)
Definition second_throws : Listener -> JsValue -> JsValue -> bool :=
  λ l _ _, bool_decide (l = 2).

(** A store that has not been used yet, over an object store that holds
    [user]. *)
Definition demo_state_new : State :=
  createStore (<["user"%string := VStr "Bob"]> ∅) [].

(** A store whose attempt to open the database has failed. *)
Definition demo_state_unopened : State := with_dbPromise (Some false) demo_state.

(** A window where listener 7 already follows [user] on the channel
    [my-app]. *)
Definition demo_window : Window :=
  mkWindow [("store:my-app:user"%string, mkHandler 0 7)] 1.

(* ------------------------------------------------------------------------ *)
(** ** How the building blocks run *)

Lemma bind_run {A B} (m : M A) (f : A -> M B) s r s1 t1 :
  m s = (r, s1, t1) ->
  bind m f s =
    match r with
    | Ok a => let '(r', s2, t2) := f a s1 in (r', s2, t1 ++ t2)
    | Throw e => (Throw e, s1, t1)
    end.
Proof. intros H. unfold bind. rewrite H. by destruct r. Qed.

Lemma state_eta s :
  mkState (cache s) (listeners s) (dbPromise s) (channel_closed s) (idb s) (idb_faults s) = s.
Proof. by destruct s. Qed.

Lemma request_run e s :
  request e s =
    (if request_ok s then Ok tt else Throw PersistenceError, after_request s, [e]).
Proof.
  destruct s as [c ls p cl db [|[] fs]]; reflexivity.
Qed.

Lemma getDb_run s :
  getDb s = (if db_opens s then Ok tt else Throw PersistenceError, after_open s, open_trace s).
Proof.
  destruct s as [c ls [[]|] cl db [|[] fs]]; reflexivity.
Qed.

Lemma forEach_cons {A} (f : A -> M unit) x xs :
  forEach f (x :: xs) = (f x ;; forEach f xs).
Proof. reflexivity. Qed.

Lemma call_listener_run value oldValue l s :
  call_listener value oldValue l s =
    (if listener_throws l value oldValue then Throw (ListenerError l) else Ok tt,
     s, [EvListener l value oldValue]).
Proof.
  unfold call_listener, bind, emit. by destruct (listener_throws l value oldValue).
Qed.

Lemma forEach_calls_quiet value oldValue ls s :
  quiet value oldValue ls = true ->
  forEach (call_listener value oldValue) ls s = (Ok tt, s, calls value oldValue ls).
Proof.
  induction ls as [|l ls IH]; intros Hq; [done|].
  simpl in Hq. apply andb_prop in Hq as [Hl Hq].
  apply negb_true_iff in Hl.
  rewrite forEach_cons, (bind_run _ _ _ _ _ _ (call_listener_run _ _ _ _)), Hl.
  by rewrite (IH Hq).
Qed.

Lemma forEach_calls_throw value oldValue ls s :
  quiet value oldValue ls = false ->
  ∃ l t, forEach (call_listener value oldValue) ls s = (Throw (ListenerError l), s, t)
         ∧ l ∈ ls ∧ forallb is_local_notification t = true.
Proof.
  induction ls as [|l ls IH]; intros Hq; [done|].
  simpl in Hq.
  rewrite forEach_cons, (bind_run _ _ _ _ _ _ (call_listener_run _ _ _ _)).
  destruct (listener_throws l value oldValue) eqn:Hl.
  - exists l, [EvListener l value oldValue]. split_and!; [done|by constructor|done].
  - simpl in Hq. destruct (IH Hq) as (l' & t & -> & Hin & Ht).
    exists l', (EvListener l value oldValue :: t). split_and!; [done|by constructor|done].
Qed.

Lemma notifyListeners_quiet key value oldValue s :
  quiet value oldValue (key_listeners key s) = true ->
  notifyListeners key value oldValue s = (Ok tt, s, notification key value oldValue s).
Proof.
  unfold notifyListeners, notification, key_listeners, bind at 1, gets.
  intros Hq. destruct (JsMap.get key (listeners s)) as [ls|]; simpl in *.
  - unfold bind. rewrite (forEach_calls_quiet _ _ _ _ Hq). reflexivity.
  - reflexivity.
Qed.

Lemma notifyListeners_throw key value oldValue s :
  quiet value oldValue (key_listeners key s) = false ->
  ∃ l t, notifyListeners key value oldValue s = (Throw (ListenerError l), s, t)
         ∧ forallb is_local_notification t = true.
Proof.
  unfold notifyListeners, key_listeners, bind at 1, gets.
  intros Hq. destruct (JsMap.get key (listeners s)) as [ls|]; simpl in *; [|done].
  destruct (forEach_calls_throw _ _ _ s Hq) as (l & t & Hrun & _ & Ht).
  exists l, t. unfold bind. rewrite Hrun. done.
Qed.

Lemma dbSet_run key value s :
  dbSet key value s =
    (if request_ok s then Ok tt else Throw PersistenceError,
     if request_ok s then with_idb (insert key value) (after_request s) else after_request s,
     [EvDbPut key value]).
Proof.
  unfold dbSet. rewrite (bind_run _ _ _ _ _ _ (request_run _ _)).
  by destruct (request_ok s).
Qed.

Lemma dbDelete_run key s :
  dbDelete key s =
    (if request_ok s then Ok tt else Throw PersistenceError,
     if request_ok s then with_idb (delete key) (after_request s) else after_request s,
     [EvDbDelete key]).
Proof.
  unfold dbDelete. rewrite (bind_run _ _ _ _ _ _ (request_run _ _)).
  by destruct (request_ok s).
Qed.

Lemma dbClear_run s :
  dbClear s =
    (if request_ok s then Ok tt else Throw PersistenceError,
     if request_ok s then with_idb (λ _, ∅) (after_request s) else after_request s,
     [EvDbClear]).
Proof.
  unfold dbClear. rewrite (bind_run _ _ _ _ _ _ (request_run _ _)).
  by destruct (request_ok s).
Qed.

Lemma postMessage_run m s :
  postMessage m s =
    (if channel_closed s then Throw TransportError else Ok tt,
     s, if channel_closed s then [] else [EvPost m]).
Proof. unfold postMessage, bind, gets. simpl. by destruct (channel_closed s). Qed.

(** [getDb] and the requests leave the store's own maps and the channel
    alone. *)
Lemma after_open_cache s : cache (after_open s) = cache s.
Proof. unfold after_open. by destruct (dbPromise s). Qed.
Lemma after_open_listeners s : listeners (after_open s) = listeners s.
Proof. unfold after_open. by destruct (dbPromise s). Qed.
Lemma after_open_closed s : channel_closed (after_open s) = channel_closed s.
Proof. unfold after_open. by destruct (dbPromise s). Qed.
Lemma after_open_idb s : idb (after_open s) = idb s.
Proof. unfold after_open. by destruct (dbPromise s). Qed.

Lemma storage_ok_with_cache f s : storage_ok (with_cache f s) = storage_ok s.
Proof. unfold storage_ok, db_opens, after_open. simpl. by destruct (dbPromise s). Qed.

(** The two awaited steps of a write, [getDb()] then one request that
    changes the object store by [upd]. *)
Lemma persist_ok (op : M unit) (upd : State -> State) e s A (k : M A) :
  (∀ s0, op s0 = (if request_ok s0 then Ok tt else Throw PersistenceError,
                  if request_ok s0 then upd (after_request s0) else after_request s0, [e])) ->
  storage_ok s = true ->
  (getDb ;; op ;; k) s =
    let '(r, s', t) := k (upd (after_request (after_open s))) in
    (r, s', open_trace s ++ e :: t).
Proof.
  intros Hop Hok. apply andb_prop in Hok as [Hopen Hreq].
  rewrite (bind_run _ _ _ _ _ _ (getDb_run _)), Hopen.
  rewrite (bind_run _ _ _ _ _ _ (Hop _)), Hreq.
  by destruct (k _) as [[r s'] t].
Qed.

Lemma persist_fails (op : M unit) (upd : State -> State) e s A (k : M A) :
  (∀ s0, op s0 = (if request_ok s0 then Ok tt else Throw PersistenceError,
                  if request_ok s0 then upd (after_request s0) else after_request s0, [e])) ->
  is_storage_event e = true ->
  storage_ok s = false ->
  ∃ s' t, (getDb ;; op ;; k) s = (Throw PersistenceError, s', t)
          ∧ cache s' = cache s ∧ listeners s' = listeners s
          ∧ channel_closed s' = channel_closed s ∧ idb s' = idb s
          ∧ forallb is_storage_event t = true.
Proof.
  intros Hop He Hok. unfold storage_ok in Hok.
  rewrite (bind_run _ _ _ _ _ _ (getDb_run _)).
  destruct (db_opens s) eqn:Hopen; simpl in Hok.
  - rewrite (bind_run _ _ _ _ _ _ (Hop _)), Hok.
    eexists _, _. split; [reflexivity|].
    rewrite forallb_app. simpl.
    rewrite after_open_cache, after_open_listeners, after_open_closed, after_open_idb.
    split_and!; try done.
    unfold open_trace. destruct (dbPromise s); simpl; by rewrite He.
  - eexists _, _. split; [reflexivity|].
    rewrite after_open_cache, after_open_listeners, after_open_closed, after_open_idb.
    split_and!; try done. unfold open_trace. by destruct (dbPromise s).
Qed.

Lemma key_listeners_ext key s s' :
  listeners s' = listeners s -> key_listeners key s' = key_listeners key s.
Proof. unfold key_listeners. by intros ->. Qed.

Lemma notification_ext key value oldValue s s' :
  listeners s' = listeners s ->
  notification key value oldValue s' = notification key value oldValue s.
Proof. unfold notification. by intros ->%(key_listeners_ext key). Qed.

Lemma persisted_listeners upd s :
  (∀ s0, listeners (upd s0) = listeners s0) ->
  listeners (upd (after_request (after_open s))) = listeners s.
Proof. intros ->. simpl. apply after_open_listeners. Qed.

Lemma persisted_closed upd s :
  (∀ s0, channel_closed (upd s0) = channel_closed s0) ->
  channel_closed (upd (after_request (after_open s))) = channel_closed s.
Proof. intros ->. simpl. apply after_open_closed. Qed.

(** The last two steps of [set] and [delete]. *)
Lemma notify_then_post key value oldValue m s :
  quiet value oldValue (key_listeners key s) = true ->
  (notifyListeners key value oldValue ;; postMessage m) s =
    (if channel_closed s then Throw TransportError else Ok tt, s,
     notification key value oldValue s ++ (if channel_closed s then [] else [EvPost m])).
Proof.
  intros Hq.
  rewrite (bind_run _ _ _ _ _ _ (notifyListeners_quiet _ _ _ _ Hq)).
  by rewrite postMessage_run.
Qed.

Lemma notify_throws_before_post key value oldValue m s :
  quiet value oldValue (key_listeners key s) = false ->
  ∃ l t, (notifyListeners key value oldValue ;; postMessage m) s
           = (Throw (ListenerError l), s, t)
         ∧ forallb is_local_notification t = true.
Proof.
  intros Hq. destruct (notifyListeners_throw _ _ _ _ Hq) as (l & t & Hrun & Ht).
  exists l, t. by rewrite (bind_run _ _ _ _ _ _ Hrun).
Qed.

(* ------------------------------------------------------------------------ *)
(** ** [set] *)

Lemma set_rejected key value msg s :
  rejection key value = Some msg ->
  set key value s = (Throw (ValidationError msg), s, []).
Proof.
  unfold rejection, set. intros Hrej.
  destruct (validator_for options key) as [validator|]; simpl in Hrej; [|done].
  by rewrite Hrej.
Qed.

Lemma set_accepted key value s :
  rejection key value = None ->
  set key value s =
    (getDb ;; dbSet key value ;;
     notifyListeners key value (cache_get key s) ;;
     postMessage (SetMsg key value (cache_get key s)))
      (with_cache (insert key value) s).
Proof.
  unfold rejection, set. intros Hacc.
  destruct (validator_for options key) as [validator|]; simpl in Hacc.
  - rewrite Hacc. unfold bind at 1 2 3. simpl. by destruct (bind _ _ _) as [[??]?].
  - unfold bind at 1 2 3. simpl. by destruct (bind _ _ _) as [[??]?].
Qed.

Lemma set_ok key value s :
  rejection key value = None ->
  storage_ok s = true ->
  quiet value (cache_get key s) (key_listeners key s) = true ->
  channel_closed s = false ->
  set key value s =
    (Ok tt,
     with_idb (insert key value) (after_request (after_open (with_cache (insert key value) s))),
     open_trace s ++ EvDbPut key value
       :: notification key value (cache_get key s) s
       ++ [EvPost (SetMsg key value (cache_get key s))]).
Proof.
  intros Hacc Hst Hq Hch. rewrite (set_accepted _ _ _ Hacc).
  rewrite (persist_ok _ (with_idb (insert key value)) _ _ _ _ (dbSet_run key value))
    by by rewrite storage_ok_with_cache.
  rewrite notify_then_post.
  - rewrite persisted_closed by done. simpl. rewrite Hch.
    by rewrite (notification_ext _ _ _ s) by by rewrite persisted_listeners.
  - by rewrite (key_listeners_ext _ s) by by rewrite persisted_listeners.
Qed.

Lemma set_storage_fails key value s :
  rejection key value = None ->
  storage_ok s = false ->
  ∃ s' t, set key value s = (Throw PersistenceError, s', t)
          ∧ cache s' = <[key:=value]> (cache s) ∧ listeners s' = listeners s
          ∧ channel_closed s' = channel_closed s ∧ idb s' = idb s
          ∧ forallb is_storage_event t = true.
Proof.
  intros Hacc Hst. rewrite (set_accepted _ _ _ Hacc).
  rewrite <- (storage_ok_with_cache (insert key value)) in Hst.
  destruct (persist_fails _ _ _ _ _
              (notifyListeners key value (cache_get key s) ;;
               postMessage (SetMsg key value (cache_get key s)))
              (dbSet_run key value) eq_refl Hst) as (s' & t & Hrun & Hs').
  by exists s', t.
Qed.

Lemma set_listener_throws key value s :
  rejection key value = None ->
  storage_ok s = true ->
  quiet value (cache_get key s) (key_listeners key s) = false ->
  ∃ l s' t, set key value s = (Throw (ListenerError l), s', t).
Proof.
  intros Hacc Hst Hq. rewrite (set_accepted _ _ _ Hacc).
  rewrite (persist_ok _ (with_idb (insert key value)) _ _ _ _ (dbSet_run key value))
    by by rewrite storage_ok_with_cache.
  edestruct notify_throws_before_post as (l & t & -> & _).
  - by rewrite (key_listeners_ext _ s) by by rewrite persisted_listeners.
  - by eexists _, _, _.
Qed.

Lemma set_post_fails key value s :
  rejection key value = None ->
  storage_ok s = true ->
  quiet value (cache_get key s) (key_listeners key s) = true ->
  channel_closed s = true ->
  set key value s =
    (Throw TransportError,
     with_idb (insert key value) (after_request (after_open (with_cache (insert key value) s))),
     open_trace s ++ EvDbPut key value :: notification key value (cache_get key s) s).
Proof.
  intros Hacc Hst Hq Hch. rewrite (set_accepted _ _ _ Hacc).
  rewrite (persist_ok _ (with_idb (insert key value)) _ _ _ _ (dbSet_run key value))
    by by rewrite storage_ok_with_cache.
  rewrite notify_then_post.
  - rewrite persisted_closed by done. simpl. rewrite Hch, app_nil_r.
    by rewrite (notification_ext _ _ _ s) by by rewrite persisted_listeners.
  - by rewrite (key_listeners_ext _ s) by by rewrite persisted_listeners.
Qed.

(** What a [set] that resolves went through. *)
Lemma set_resolves_inv key value s s' t :
  set key value s = (Ok tt, s', t) ->
  rejection key value = None ∧ storage_ok s = true
  ∧ quiet value (cache_get key s) (key_listeners key s) = true
  ∧ channel_closed s = false.
Proof.
  intros Hrun.
  destruct (rejection key value) as [msg|] eqn:Hrej.
  { by rewrite (set_rejected _ _ _ _ Hrej) in Hrun. }
  destruct (storage_ok s) eqn:Hst; cycle 1.
  { destruct (set_storage_fails _ _ s Hrej Hst) as (? & ? & Hf & _). congruence. }
  destruct (quiet value (cache_get key s) (key_listeners key s)) eqn:Hq; cycle 1.
  { destruct (set_listener_throws _ _ s Hrej Hst Hq) as (? & ? & ? & Hf). congruence. }
  destruct (channel_closed s) eqn:Hch.
  { rewrite (set_post_fails _ _ s Hrej Hst Hq Hch) in Hrun. congruence. }
  done.
Qed.

(* ------------------------------------------------------------------------ *)
(** ** [get] *)

Lemma get_cached key value s :
  cache s !! key = Some value ->
  get key s = (Ok value, s, []).
Proof.
  intros Hc. unfold get, bind, gets, cache_has, cache_get. rewrite Hc. simpl. by rewrite Hc.
Qed.

(* ------------------------------------------------------------------------ *)
(** ** [delete] *)

Lemma del_run key s :
  del key s =
    (getDb ;; dbDelete key ;;
     notifyListeners key VUndefined (cache_get key s) ;;
     postMessage (DeleteMsg key (cache_get key s)))
      (with_cache (delete key) s).
Proof.
  unfold del. unfold bind at 1 2. simpl. by destruct (bind _ _ _) as [[??]?].
Qed.

Lemma del_ok key s :
  storage_ok s = true ->
  quiet VUndefined (cache_get key s) (key_listeners key s) = true ->
  channel_closed s = false ->
  del key s =
    (Ok tt,
     with_idb (delete key) (after_request (after_open (with_cache (delete key) s))),
     open_trace s ++ EvDbDelete key
       :: notification key VUndefined (cache_get key s) s
       ++ [EvPost (DeleteMsg key (cache_get key s))]).
Proof.
  intros Hst Hq Hch. rewrite del_run.
  rewrite (persist_ok _ (with_idb (delete key)) _ _ _ _ (dbDelete_run key))
    by by rewrite storage_ok_with_cache.
  rewrite notify_then_post.
  - rewrite persisted_closed by done. simpl. rewrite Hch.
    by rewrite (notification_ext _ _ _ s) by by rewrite persisted_listeners.
  - by rewrite (key_listeners_ext _ s) by by rewrite persisted_listeners.
Qed.

Lemma del_post_fails key s :
  storage_ok s = true ->
  quiet VUndefined (cache_get key s) (key_listeners key s) = true ->
  channel_closed s = true ->
  del key s =
    (Throw TransportError,
     with_idb (delete key) (after_request (after_open (with_cache (delete key) s))),
     open_trace s ++ EvDbDelete key :: notification key VUndefined (cache_get key s) s).
Proof.
  intros Hst Hq Hch. rewrite del_run.
  rewrite (persist_ok _ (with_idb (delete key)) _ _ _ _ (dbDelete_run key))
    by by rewrite storage_ok_with_cache.
  rewrite notify_then_post.
  - rewrite persisted_closed by done. simpl. rewrite Hch, app_nil_r.
    by rewrite (notification_ext _ _ _ s) by by rewrite persisted_listeners.
  - by rewrite (key_listeners_ext _ s) by by rewrite persisted_listeners.
Qed.

(* ------------------------------------------------------------------------ *)
(** ** Notifying every key of the registry *)

Lemma calls_local value oldValue ls :
  forallb is_local_notification (calls value oldValue ls) = true.
Proof. by induction ls. Qed.

Lemma notification_local key value oldValue s :
  forallb is_local_notification (notification key value oldValue s) = true.
Proof.
  unfold notification. rewrite forallb_app, calls_local. reflexivity.
Qed.

Lemma forEach_notify_quiet (ks : list string) s :
  forallb (λ key, quiet VUndefined VUndefined (key_listeners key s)) ks = true ->
  forEach (λ key, notifyListeners key VUndefined VUndefined) ks s =
    (Ok tt, s, mjoin ((λ key, notification key VUndefined VUndefined s) <$> ks)).
Proof.
  induction ks as [|k ks IH]; intros Hq; [done|].
  simpl in Hq. apply andb_prop in Hq as [Hk Hq].
  rewrite forEach_cons, (bind_run _ _ _ _ _ _ (notifyListeners_quiet _ _ _ _ Hk)).
  by rewrite (IH Hq).
Qed.

Lemma forEach_notify_throw (ks : list string) s :
  forallb (λ key, quiet VUndefined VUndefined (key_listeners key s)) ks = false ->
  ∃ l t, forEach (λ key, notifyListeners key VUndefined VUndefined) ks s =
           (Throw (ListenerError l), s, t)
         ∧ forallb is_local_notification t = true.
Proof.
  induction ks as [|k ks IH]; intros Hq; [done|].
  simpl in Hq. rewrite forEach_cons.
  destruct (quiet VUndefined VUndefined (key_listeners k s)) eqn:Hk.
  - rewrite (bind_run _ _ _ _ _ _ (notifyListeners_quiet _ _ _ _ Hk)).
    destruct (IH Hq) as (l & t & -> & Ht). eexists _, _. split; [reflexivity|].
    by rewrite forallb_app, Ht, notification_local.
  - destruct (notifyListeners_throw _ _ _ _ Hk) as (l & t & Hrun & Ht).
    exists l, t. by rewrite (bind_run _ _ _ _ _ _ Hrun).
Qed.

Lemma notifyAll_quiet s :
  quiet_all s = true ->
  notifyAll s = (Ok tt, s, notification_all s).
Proof.
  intros Hq. unfold notifyAll, bind at 1, gets.
  by rewrite (forEach_notify_quiet _ _ Hq).
Qed.

Lemma notifyAll_throw s :
  quiet_all s = false ->
  ∃ l t, notifyAll s = (Throw (ListenerError l), s, t)
         ∧ forallb is_local_notification t = true.
Proof.
  intros Hq. unfold notifyAll, bind at 1, gets.
  destruct (forEach_notify_throw _ _ Hq) as (l & t & -> & Ht). by exists l, t.
Qed.

Lemma notification_all_local s :
  forallb is_local_notification (notification_all s) = true.
Proof.
  unfold notification_all. induction (JsMap.keys (listeners s)) as [|k ks IH]; [done|].
  rewrite fmap_cons. change (mjoin (?x :: ?xs)) with (x ++ mjoin xs).
  by rewrite forallb_app, notification_local, IH.
Qed.

Lemma quiet_all_ext s s' :
  listeners s' = listeners s -> quiet_all s' = quiet_all s.
Proof.
  unfold quiet_all. intros Hl. rewrite Hl.
  induction (JsMap.keys (listeners s)) as [|key ks IH]; [done|].
  simpl. by rewrite IH, (key_listeners_ext _ s).
Qed.

Lemma notification_all_ext s s' :
  listeners s' = listeners s -> notification_all s' = notification_all s.
Proof.
  unfold notification_all. intros Hl. rewrite Hl. f_equal.
  apply list_fmap_ext. intros _ key _. by apply notification_ext.
Qed.

(* ------------------------------------------------------------------------ *)
(** ** [clear] *)

Lemma bind_modify {A} (f : State -> State) (k : M A) s :
  (modify f ;; k) s = k (f s).
Proof. unfold bind, modify. by destruct (k (f s)) as [[??]?]. Qed.

Lemma bind_gets {A B} (g : State -> A) (k : A -> M B) s :
  bind (gets g) k s = k (g s) s.
Proof. unfold bind, gets. by destruct (k (g s) s) as [[??]?]. Qed.

Lemma notifyAll_then_post m s :
  quiet_all s = true ->
  (notifyAll ;; postMessage m) s =
    (if channel_closed s then Throw TransportError else Ok tt, s,
     notification_all s ++ (if channel_closed s then [] else [EvPost m])).
Proof.
  intros Hq. rewrite (bind_run _ _ _ _ _ _ (notifyAll_quiet _ Hq)).
  by rewrite postMessage_run.
Qed.

Lemma clear_run s :
  clear s = (getDb ;; dbClear ;; notifyAll ;; postMessage ClearMsg) (with_cache (λ _, ∅) s).
Proof. unfold clear. by rewrite bind_modify. Qed.

Lemma clear_ok s :
  storage_ok s = true ->
  quiet_all s = true ->
  channel_closed s = false ->
  clear s =
    (Ok tt,
     with_idb (λ _, ∅) (after_request (after_open (with_cache (λ _, ∅) s))),
     open_trace s ++ EvDbClear :: notification_all s ++ [EvPost ClearMsg]).
Proof.
  intros Hst Hq Hch. rewrite clear_run.
  rewrite (persist_ok _ (with_idb (λ _, ∅)) _ _ _ _ dbClear_run)
    by by rewrite storage_ok_with_cache.
  rewrite notifyAll_then_post.
  - rewrite persisted_closed by done. simpl. rewrite Hch.
    by rewrite (notification_all_ext s) by by rewrite persisted_listeners.
  - by rewrite (quiet_all_ext s) by by rewrite persisted_listeners.
Qed.

Lemma clear_post_fails s :
  storage_ok s = true ->
  quiet_all s = true ->
  channel_closed s = true ->
  clear s =
    (Throw TransportError,
     with_idb (λ _, ∅) (after_request (after_open (with_cache (λ _, ∅) s))),
     open_trace s ++ EvDbClear :: notification_all s).
Proof.
  intros Hst Hq Hch. rewrite clear_run.
  rewrite (persist_ok _ (with_idb (λ _, ∅)) _ _ _ _ dbClear_run)
    by by rewrite storage_ok_with_cache.
  rewrite notifyAll_then_post.
  - rewrite persisted_closed by done. simpl. rewrite Hch, app_nil_r.
    by rewrite (notification_all_ext s) by by rewrite persisted_listeners.
  - by rewrite (quiet_all_ext s) by by rewrite persisted_listeners.
Qed.

Lemma clear_storage_fails s :
  storage_ok s = false ->
  ∃ s' t, clear s = (Throw PersistenceError, s', t)
          ∧ cache s' = ∅ ∧ idb s' = idb s ∧ forallb is_storage_event t = true.
Proof.
  intros Hst. rewrite clear_run.
  rewrite <- (storage_ok_with_cache (λ _, ∅)) in Hst.
  destruct (persist_fails _ _ _ _ _ (notifyAll ;; postMessage ClearMsg)
              dbClear_run eq_refl Hst) as (s' & t & Hrun & Hc & _ & _ & Hi & Ht).
  by exists s', t.
Qed.

Lemma clear_listener_throws s :
  storage_ok s = true ->
  quiet_all s = false ->
  ∃ l s' t, clear s = (Throw (ListenerError l), s', t).
Proof.
  intros Hst Hq. rewrite clear_run.
  rewrite (persist_ok _ (with_idb (λ _, ∅)) _ _ _ _ dbClear_run)
    by by rewrite storage_ok_with_cache.
  rewrite <- (quiet_all_ext s (with_idb (λ _, ∅)
                (after_request (after_open (with_cache (λ _, ∅) s))))) in Hq
    by by rewrite persisted_listeners.
  destruct (notifyAll_throw _ Hq) as (l & t & Hrun & _).
  rewrite (bind_run _ _ _ _ _ _ Hrun). by eexists _, _, _.
Qed.

Lemma clear_resolves_inv s s' t :
  clear s = (Ok tt, s', t) ->
  storage_ok s = true ∧ quiet_all s = true ∧ channel_closed s = false.
Proof.
  intros Hrun.
  destruct (storage_ok s) eqn:Hst; cycle 1.
  { destruct (clear_storage_fails s Hst) as (? & ? & Hf & _). congruence. }
  destruct (quiet_all s) eqn:Hq; cycle 1.
  { destruct (clear_listener_throws s Hst Hq) as (? & ? & ? & Hf). congruence. }
  destruct (channel_closed s) eqn:Hch.
  { rewrite (clear_post_fails s Hst Hq Hch) in Hrun. congruence. }
  done.
Qed.

(* ------------------------------------------------------------------------ *)
(** ** [channel.onmessage] *)

Lemma onmessage_set key value oldValue s :
  value ≠ VUndefined ->
  onmessage (mkMsg TSet (Some key) value oldValue) s =
    notifyListeners key value oldValue (with_cache (insert key value) s).
Proof.
  intros Hv. unfold onmessage. simpl.
  rewrite bool_decide_eq_true_2 by done. by rewrite bind_modify.
Qed.

Lemma onmessage_delete key value oldValue s :
  onmessage (mkMsg TDelete (Some key) value oldValue) s =
    notifyListeners key VUndefined (cache_get key s) (with_cache (delete key) s).
Proof. unfold onmessage. simpl. by rewrite bind_gets, bind_modify. Qed.

Lemma onmessage_clear key value oldValue s :
  onmessage (mkMsg TClear key value oldValue) s = notifyAll (with_cache (λ _, ∅) s).
Proof. unfold onmessage. simpl. by rewrite bind_modify. Qed.

Lemma onmessage_ignored data s :
  msg_type data = TSet ∧ msg_value data = VUndefined ∨ msg_key data = None ∧ msg_type data ≠ TClear ->
  onmessage data s = (Ok tt, s, []).
Proof.
  destruct data as [ty [key|] value oldValue]; simpl.
  - intros [[-> ->]|[? _]]; [|done]. reflexivity.
  - intros [[-> _]|[_ Hty]]; [done|]. by destruct ty.
Qed.

(** A round of notification changes nothing in the store. *)
Lemma notifyListeners_local key value oldValue s :
  ∃ r t, notifyListeners key value oldValue s = (r, s, t)
         ∧ forallb is_local_notification t = true.
Proof.
  destruct (quiet value oldValue (key_listeners key s)) eqn:Hq.
  - rewrite (notifyListeners_quiet _ _ _ _ Hq). eexists _, _. split; [done|].
    apply notification_local.
  - destruct (notifyListeners_throw _ _ _ _ Hq) as (l & t & -> & Ht). by eexists _, _.
Qed.

Lemma notifyAll_local s :
  ∃ r t, notifyAll s = (r, s, t) ∧ forallb is_local_notification t = true.
Proof.
  destruct (quiet_all s) eqn:Hq.
  - rewrite (notifyAll_quiet _ Hq). eexists _, _. split; [done|].
    apply notification_all_local.
  - destruct (notifyAll_throw _ Hq) as (l & t & -> & Ht). by eexists _, _.
Qed.

(* ------------------------------------------------------------------------ *)
(** ** The listener registry *)

Lemma JsMap_get_set_eq {V} k (v : V) m : JsMap.get k (JsMap.set k v m) = Some v.
Proof.
  induction m as [|[k' v'] m IH]; simpl.
  - by rewrite bool_decide_eq_true_2.
  - case_bool_decide; simpl.
    + by rewrite bool_decide_eq_true_2.
    + by rewrite bool_decide_eq_false_2.
Qed.

Lemma JsMap_get_set_ne {V} k k' (v : V) m :
  k ≠ k' -> JsMap.get k' (JsMap.set k v m) = JsMap.get k' m.
Proof.
  intros Hne. induction m as [|[k0 v0] m IH]; simpl.
  - by rewrite bool_decide_eq_false_2.
  - case_bool_decide; simpl.
    + subst k0. by rewrite !bool_decide_eq_false_2.
    + by rewrite IH.
Qed.

Lemma JsMap_get_remove_eq {V} k (m : list (string * V)) :
  JsMap.get k (JsMap.remove k m) = None.
Proof.
  induction m as [|[k' v'] m IH]; simpl; [done|].
  case_bool_decide; simpl; [done|]. by rewrite bool_decide_eq_false_2.
Qed.

Lemma JsMap_get_remove_ne {V} k k' (m : list (string * V)) :
  k ≠ k' -> JsMap.get k' (JsMap.remove k m) = JsMap.get k' m.
Proof.
  intros Hne. induction m as [|[k0 v0] m IH]; simpl; [done|].
  case_bool_decide; simpl.
  - subst k0. by rewrite bool_decide_eq_false_2.
  - by rewrite IH.
Qed.

Lemma JsMap_set_id {V} k (v : V) m : JsMap.get k m = Some v -> JsMap.set k v m = m.
Proof.
  induction m as [|[k' v'] m IH]; simpl; [done|].
  case_bool_decide; [by intros [= ->]; subst|]. intros ?. by rewrite IH.
Qed.

Lemma JsSet_elem_of_remove x y xs : y ∈ JsSet.remove x xs ↔ y ∈ xs ∧ y ≠ x.
Proof. unfold JsSet.remove. rewrite list_elem_of_filter. tauto. Qed.

Lemma JsSet_remove_idemp x xs : JsSet.remove x (JsSet.remove x xs) = JsSet.remove x xs.
Proof.
  unfold JsSet.remove. induction xs as [|y xs IH]; [done|].
  rewrite filter_cons. case_decide; [|done].
  rewrite filter_cons, decide_True by done. by rewrite IH.
Qed.

Lemma JsSet_elem_of_add x y xs : y ∈ JsSet.add x xs ↔ y = x ∨ y ∈ xs.
Proof.
  unfold JsSet.add. case_bool_decide.
  - split; [by right|]. by intros [->|?].
  - rewrite elem_of_app, list_elem_of_singleton. tauto.
Qed.

Lemma registry_without_other key listener m k' :
  key ≠ k' ->
  JsMap.get k' (registry_without key listener m) = JsMap.get k' m.
Proof.
  intros Hne. unfold registry_without.
  destruct (JsMap.get key m) as [ls|]; [|done].
  case_bool_decide.
  - by rewrite JsMap_get_remove_ne, JsMap_get_set_ne.
  - by rewrite JsMap_get_set_ne.
Qed.

Lemma registry_without_key key listener m :
  JsMap.get key (registry_without key listener m) =
    match JsMap.get key m with
    | Some ls =>
        if bool_decide (JsSet.remove listener ls = []) then None
        else Some (JsSet.remove listener ls)
    | None => None
    end.
Proof.
  unfold registry_without.
  destruct (JsMap.get key m) as [ls|] eqn:Hget; [|done].
  destruct (JsSet.remove listener ls) as [|l' ls'] eqn:Hrm; simpl.
  - apply JsMap_get_remove_eq.
  - apply JsMap_get_set_eq.
Qed.

Lemma registry_without_idemp key listener m :
  registry_without key listener (registry_without key listener m)
  = registry_without key listener m.
Proof.
  unfold registry_without at 1. rewrite registry_without_key.
  destruct (JsMap.get key m) as [ls|] eqn:Hget; [|done].
  case_bool_decide as Hrm; [done|].
  rewrite JsSet_remove_idemp.
  rewrite bool_decide_eq_false_2 by by destruct (JsSet.remove listener ls).
  apply JsMap_set_id. rewrite registry_without_key, Hget.
  by rewrite bool_decide_eq_false_2.
Qed.

Lemma unsubscribe_run key listener s :
  unsubscribe key listener s =
    (Ok tt, with_listeners (registry_without key listener) s, []).
Proof.
  unfold unsubscribe, registry_without, with_listeners. rewrite bind_gets.
  destruct (JsMap.get key (listeners s)) as [ls|].
  - rewrite bind_modify. by case_bool_decide.
  - by rewrite state_eta.
Qed.

Lemma subscribe_run key listener s :
  subscribe key listener s =
    (Ok (unsubscribe key listener), with_listeners (registry_with key listener) s, []).
Proof.
  unfold subscribe, registry_with, with_listeners. rewrite bind_gets.
  destruct (JsMap.has key (listeners s)).
  - unfold bind at 1, ret. rewrite bind_gets, bind_modify. reflexivity.
  - rewrite bind_modify, bind_gets, bind_modify. reflexivity.
Qed.

(* ------------------------------------------------------------------------ *)
(** ** The write path *)

(** C1.  When the validator registered for [key] throws on [value],
    [set(key, value)] rejects with that validation error and has done
    nothing: the state it leaves is the state it found (same cache, same
    object store, so a later [get] answers as before) and the trace is empty
    (no listener call, no [CustomEvent], no [postMessage], no request). *)
Theorem set_rejected_has_no_effect key value validator msg s :
  validator_for options key = Some validator ->
  validator value = Some msg ->
  ∃ s', set key value s = (Throw (ValidationError msg), s', [])
        ∧ s' = s ∧ cache s' = cache s ∧ idb s' = idb s
        ∧ get key s' = get key s.
Proof.
  intros Hv Hmsg. exists s. split_and!; try done.
  apply set_rejected. unfold rejection. by rewrite Hv.
Qed.

Lemma filter_storage_open_trace s :
  filter (λ e, is_storage_event e = false) (open_trace s) = [].
Proof. unfold open_trace. by destruct (dbPromise s). Qed.

Lemma filter_storage_calls value oldValue ls tail :
  filter (λ e, is_storage_event e = false) (calls value oldValue ls ++ tail)
  = calls value oldValue ls ++ filter (λ e, is_storage_event e = false) tail.
Proof.
  induction ls as [|l ls IH]; [done|]. simpl.
  rewrite filter_cons, decide_True by done. by rewrite IH.
Qed.

(** C2.  A [set(key, value)] that resolves has gone, after the requests on
    the object store, through exactly: one call of each listener registered
    for [key], in registration order, with [(value, oldValue)]; then one
    [CustomEvent] named [store:<channelName>:<key>]; then one
    [postMessage] of [{type: 'set', key, value, oldValue}]; [oldValue] being
    what the cache held for [key] on entry. *)
Theorem set_notifies_once_in_order key value s s' t :
  set key value s = (Ok tt, s', t) ->
  let oldValue := cache_get key s in
  let round :=
    calls value oldValue (key_listeners key s)
    ++ [EvDispatch (createEventName (channelName options) key) value oldValue;
        EvPost (SetMsg key value oldValue)] in
  t = open_trace s ++ EvDbPut key value :: round
  ∧ filter (λ e, is_storage_event e = false) t = round.
Proof.
  intros Hrun. destruct (set_resolves_inv _ _ _ _ _ Hrun) as (Hacc & Hst & Hq & Hch).
  rewrite (set_ok _ _ _ Hacc Hst Hq Hch) in Hrun.
  injection Hrun as _ <-. unfold notification. rewrite <- app_assoc. simpl.
  split; [done|].
  rewrite filter_app, filter_storage_open_trace, filter_cons, decide_False by done.
  simpl. by rewrite filter_storage_calls.
Qed.

(** C4.  When the validator lets [value] through and the persistence step
    fails (the connection does not open, or the [put] request errors),
    [set(key, value)] rejects with the storage error, the cache keeps the new
    value, the object store does not have it, and a [get(key)] made next is
    answered with the new value from the cache, without any request. *)
Theorem set_keeps_cache_when_persistence_fails key value s :
  rejection key value = None ->
  storage_ok s = false ->
  ∃ s' t, set key value s = (Throw PersistenceError, s', t)
          ∧ cache s' = <[key:=value]> (cache s)
          ∧ idb s' = idb s
          ∧ forallb is_storage_event t = true
          ∧ get key s' = (Ok value, s', []).
Proof.
  intros Hacc Hst.
  destruct (set_storage_fails _ _ s Hacc Hst) as (s' & t & Hrun & Hc & _ & _ & Hi & Ht).
  exists s', t. split_and!; try done.
  apply get_cached. rewrite Hc. apply lookup_insert_eq.
Qed.

(** C8.  With no validator registered for [key], a [set(key, value)] that
    resolves is followed by a [get(key)] that returns [value], answered from
    the cache: no request is made and the state is left as it is. *)
Theorem set_then_get key value s s' t :
  validator_for options key = None ->
  set key value s = (Ok tt, s', t) ->
  get key s' = (Ok value, s', []).
Proof.
  intros _ Hrun. destruct (set_resolves_inv _ _ _ _ _ Hrun) as (Hacc & Hst & Hq & Hch).
  rewrite (set_ok _ _ _ Hacc Hst Hq Hch) in Hrun.
  injection Hrun as <- _. apply get_cached.
  simpl. rewrite after_open_cache. simpl. apply lookup_insert_eq.
Qed.

(** C5, as the code has it.  [channel.postMessage] is the last statement of
    [set], [delete] and [clear] and nothing catches what it throws: when
    validation, persistence and the local notifications have gone through
    and the post fails, the call rejects with the transport error, the cache
    and the object store already changed and the notifications already
    delivered. *)
Theorem post_failure_rejects_the_call s :
  channel_closed s = true ->
  storage_ok s = true ->
  (∀ key value,
     rejection key value = None ->
     quiet value (cache_get key s) (key_listeners key s) = true ->
     set key value s =
       (Throw TransportError,
        with_idb (insert key value)
          (after_request (after_open (with_cache (insert key value) s))),
        open_trace s ++ EvDbPut key value
          :: notification key value (cache_get key s) s))
  ∧ (∀ key,
       quiet VUndefined (cache_get key s) (key_listeners key s) = true ->
       del key s =
         (Throw TransportError,
          with_idb (delete key) (after_request (after_open (with_cache (delete key) s))),
          open_trace s ++ EvDbDelete key
            :: notification key VUndefined (cache_get key s) s))
  ∧ (quiet_all s = true ->
     clear s =
       (Throw TransportError,
        with_idb (λ _, ∅) (after_request (after_open (with_cache (λ _, ∅) s))),
        open_trace s ++ EvDbClear :: notification_all s)).
Proof.
  intros Hch Hst. split_and!.
  - intros key value Hacc Hq. by apply set_post_fails.
  - intros key Hq. by apply del_post_fails.
  - intros Hq. by apply clear_post_fails.
Qed.

(** C7.  A [clear()] that resolves leaves an empty cache and an empty object
    store, has gone through one round of notification with
    [(undefined, undefined)] for each key of the registry, in the order of
    the registry and for no other key, and has then posted one
    [{type: 'clear'}]. *)
Theorem clear_resets_and_notifies_registry s s' t :
  clear s = (Ok tt, s', t) ->
  cache s' = ∅ ∧ idb s' = ∅ ∧ listeners s' = listeners s
  ∧ t = open_trace s ++ EvDbClear
          :: mjoin ((λ key,
                calls VUndefined VUndefined (key_listeners key s)
                ++ [EvDispatch (createEventName (channelName options) key)
                      VUndefined VUndefined])
              <$> JsMap.keys (listeners s))
          ++ [EvPost ClearMsg].
Proof.
  intros Hrun. destruct (clear_resolves_inv _ _ _ Hrun) as (Hst & Hq & Hch).
  rewrite (clear_ok _ Hst Hq Hch) in Hrun. injection Hrun as <- <-.
  split_and!; try done.
  - simpl. by rewrite after_open_cache.
  - by rewrite persisted_listeners.
Qed.

(* ------------------------------------------------------------------------ *)
(** ** Inbound messages *)

(** C3, as the code has it.  On [{type: 'delete', key, oldValue}] the handler
    removes [key] from its cache and runs one round of notification for
    [key] with [(undefined, old)], where [old] is what its own cache held
    for [key] before the removal ([undefined] when it held nothing); the
    [oldValue] of the message is not read. *)
Theorem inbound_delete_notifies_cached_old key value oldValue s :
  quiet VUndefined (cache_get key s) (key_listeners key s) = true ->
  onmessage (mkMsg TDelete (Some key) value oldValue) s =
    (Ok tt, with_cache (delete key) s,
     calls VUndefined (cache_get key s) (key_listeners key s)
     ++ [EvDispatch (createEventName (channelName options) key)
           VUndefined (cache_get key s)]).
Proof.
  intros Hq. rewrite onmessage_delete.
  by rewrite notifyListeners_quiet.
Qed.

Lemma onmessage_quiet data s :
  inbound_quiet data s = true ->
  onmessage data s =
    (Ok tt, with_cache (inbound_cache data) s, inbound_notification data s).
Proof.
  destruct data as [[] [key|] value oldValue];
    unfold inbound_quiet, inbound_cache, inbound_notification; simpl; intros Hq.
  - case_bool_decide as Hv.
    + rewrite onmessage_set by done. by rewrite notifyListeners_quiet.
    + rewrite onmessage_ignored by (left; split; [done|]; by destruct (decide (value = VUndefined))).
      unfold with_cache. by rewrite state_eta.
  - rewrite onmessage_ignored by (by right). unfold with_cache. by rewrite state_eta.
  - rewrite onmessage_delete. by rewrite notifyListeners_quiet.
  - rewrite onmessage_ignored by (by right). unfold with_cache. by rewrite state_eta.
  - rewrite onmessage_clear. by rewrite notifyAll_quiet.
  - rewrite onmessage_clear. by rewrite notifyAll_quiet.
Qed.

Lemma onmessage_local data s :
  ∃ r t, onmessage data s = (r, with_cache (inbound_cache data) s, t)
         ∧ forallb is_local_notification t = true.
Proof.
  destruct data as [[] [key|] value oldValue]; unfold inbound_cache; simpl.
  - case_bool_decide as Hv.
    + rewrite onmessage_set by done. apply notifyListeners_local.
    + rewrite onmessage_ignored by (left; split; [done|]; by destruct (decide (value = VUndefined))).
      unfold with_cache. rewrite state_eta. by eexists _, _.
  - rewrite onmessage_ignored by (by right). unfold with_cache. rewrite state_eta.
    by eexists _, _.
  - rewrite onmessage_delete. apply notifyListeners_local.
  - rewrite onmessage_ignored by (by right). unfold with_cache. rewrite state_eta.
    by eexists _, _.
  - rewrite onmessage_clear. apply notifyAll_local.
  - rewrite onmessage_clear. apply notifyAll_local.
Qed.

(** C6.  Whatever the inbound message, the handler changes the cache only
    (as the message says), and everything it does outside is a listener call
    or a [CustomEvent]: its trace has no [postMessage] (and no request on
    the object store).  When no listener throws, these notifications are the
    rounds the message calls for. *)
Theorem inbound_message_is_never_reposted data s :
  ∃ r t, onmessage data s = (r, with_cache (inbound_cache data) s, t)
         ∧ (∀ m, EvPost m ∉ t)
         ∧ forallb is_local_notification t = true
         ∧ (inbound_quiet data s = true ->
            r = Ok tt ∧ t = inbound_notification data s).
Proof.
  destruct (onmessage_local data s) as (r & t & Hrun & Ht).
  exists r, t. split_and!; try done.
  - intros m Hin. apply list_elem_of_In in Hin.
    by apply (proj1 (forallb_forall _ _) Ht) in Hin.
  - intros Hq. rewrite (onmessage_quiet _ _ Hq) in Hrun. by injection Hrun as <- <-.
Qed.

(** C10.  A [{type: 'set'}] message whose [value] is [undefined], or whose
    [key] is [undefined], matches no branch of the handler: the state
    (cache included) is left as it is and nothing is notified. *)
Theorem inbound_set_of_undefined_is_ignored data s :
  msg_type data = TSet ->
  msg_value data = VUndefined ∨ msg_key data = None ->
  onmessage data s = (Ok tt, s, []).
Proof.
  intros Hty [Hv|Hk]; apply onmessage_ignored.
  - by left.
  - right. split; [done|]. by rewrite Hty.
Qed.

(* ------------------------------------------------------------------------ *)
(** ** Subscriptions *)

(** C9.  [subscribe(key, listener)] registers the listener and returns the
    function [unsubscribe key listener].  Run on any state, that function
    throws nothing and does nothing outside; it changes the registry only:
    afterwards the pairs registered are those registered before, less
    [(key, listener)]; [key] has an entry only if a listener is left for it;
    and running the function once more leaves the state as it is. *)
Theorem unsubscribe_exact_and_idempotent key listener s :
  (∀ s0, ∃ s1, subscribe key listener s0 = (Ok (unsubscribe key listener), s1, [])
               ∧ subscribed key listener s1)
  ∧ ∃ s', unsubscribe key listener s = (Ok tt, s', [])
          ∧ s' = with_listeners (λ _, listeners s') s
          ∧ (∀ k l, subscribed k l s' ↔ subscribed k l s ∧ ¬ (k = key ∧ l = listener))
          ∧ (JsMap.has key (listeners s') = true ↔ ∃ l, subscribed key l s')
          ∧ unsubscribe key listener s' = (Ok tt, s', []).
Proof.
  split.
  { intros s0. rewrite subscribe_run. eexists. split; [done|].
    unfold subscribed, registry_with. simpl. rewrite JsMap_get_set_eq.
    eexists. split; [done|]. apply JsSet_elem_of_add. by left. }
  rewrite unsubscribe_run. eexists. split; [done|]. split_and!.
  - done.
  - intros k l. unfold subscribed. simpl.
    destruct (decide (key = k)) as [<-|Hne].
    + rewrite registry_without_key.
      destruct (JsMap.get key (listeners s)) as [ls|]; [|naive_solver].
      case_bool_decide as Hrm.
      * split; [naive_solver|]. intros [(ls0 & [= <-] & Hin) Hneq].
        assert (l ∈ JsSet.remove listener ls) as Hl
          by (apply JsSet_elem_of_remove; naive_solver).
        rewrite Hrm in Hl. by apply elem_of_nil in Hl.
      * split.
        -- intros (? & [= <-] & [Hin Hneq]%JsSet_elem_of_remove). naive_solver.
        -- intros [(ls0 & [= <-] & Hin) Hneq]. eexists. split; [done|].
           apply JsSet_elem_of_remove. naive_solver.
    + rewrite registry_without_other by done. naive_solver.
  - unfold subscribed, JsMap.has. rewrite bool_decide_eq_true. simpl.
    rewrite registry_without_key.
    destruct (JsMap.get key (listeners s)) as [ls|].
    + case_bool_decide as Hrm.
      * split; [by intros []|]. by intros (? & ? & ? & ?).
      * split; [|by eauto].
        intros _. destruct (JsSet.remove listener ls) as [|l ls'] eqn:Heq; [done|].
        exists l. eexists. split; [done|]. by constructor.
    + split; [by intros []|]. by intros (? & ? & ? & ?).
  - rewrite unsubscribe_run. unfold with_listeners. simpl.
    by rewrite registry_without_idemp.
Qed.


(* ------------------------------------------------------------------------ *)
(** ** The read path *)

Lemma dbGet_run key s :
  dbGet key s =
    (if request_ok s then Ok (default VUndefined (idb s !! key)) else Throw PersistenceError,
     after_request s, [EvDbGet key]).
Proof.
  unfold dbGet. rewrite (bind_run _ _ _ _ _ _ (request_run _ _)).
  by destruct (request_ok s).
Qed.

Lemma dbGetAll_run s :
  dbGetAll s =
    (if request_ok s then Ok (idb s) else Throw PersistenceError,
     after_request s, [EvDbGetAll]).
Proof.
  unfold dbGetAll. rewrite (bind_run _ _ _ _ _ _ (request_run _ _)).
  by destruct (request_ok s).
Qed.

Lemma get_miss_run key s :
  cache s !! key = None ->
  get key s =
    (getDb ;;
     let* value := dbGet key in
     (if bool_decide (value ≠ VUndefined)
      then modify (with_cache (insert key value))
      else ret tt) ;;
     ret value) s.
Proof.
  intros Hc. unfold get. rewrite bind_gets. unfold cache_has. by rewrite Hc.
Qed.

Lemma get_miss_ok key s :
  cache s !! key = None ->
  storage_ok s = true ->
  get key s =
    (Ok (default VUndefined (idb s !! key)),
     (if bool_decide (default VUndefined (idb s !! key) ≠ VUndefined)
      then with_cache (insert key (default VUndefined (idb s !! key)))
             (after_request (after_open s))
      else after_request (after_open s)),
     open_trace s ++ [EvDbGet key]).
Proof.
  intros Hc [Hopen Hreq]%andb_prop. rewrite (get_miss_run _ _ Hc).
  rewrite (bind_run _ _ _ _ _ _ (getDb_run _)), Hopen.
  rewrite (bind_run _ _ _ _ _ _ (dbGet_run _ _)), Hreq.
  simpl. rewrite after_open_idb.
  case_bool_decide; by rewrite ?bind_modify.
Qed.

Lemma get_miss_fails key s :
  cache s !! key = None ->
  storage_ok s = false ->
  ∃ s' t, get key s = (Throw PersistenceError, s', t)
          ∧ cache s' = cache s ∧ listeners s' = listeners s
          ∧ channel_closed s' = channel_closed s ∧ idb s' = idb s
          ∧ forallb is_storage_event t = true.
Proof.
  intros Hc Hst. rewrite (get_miss_run _ _ Hc). unfold storage_ok in Hst.
  rewrite (bind_run _ _ _ _ _ _ (getDb_run _)).
  destruct (db_opens s) eqn:Hopen; simpl in Hst.
  - rewrite (bind_run _ _ _ _ _ _ (dbGet_run _ _)), Hst.
    eexists _, _. split; [reflexivity|]. simpl.
    rewrite after_open_cache, after_open_listeners, after_open_closed, after_open_idb.
    split_and!; try done. unfold open_trace. by destruct (dbPromise s).
  - eexists _, _. split; [reflexivity|].
    rewrite after_open_cache, after_open_listeners, after_open_closed, after_open_idb.
    split_and!; try done. unfold open_trace. by destruct (dbPromise s).
Qed.

Lemma after_open_dbPromise s : db_opens s = true -> dbPromise (after_open s) = Some true.
Proof.
  unfold db_opens, after_open. destruct (dbPromise s) as [[]|] eqn:Hp; simpl; try done.
  intros H. f_equal. unfold db_opens. by rewrite Hp.
Qed.

Lemma settled_after_open s b : dbPromise s = Some b -> after_open s = s.
Proof. unfold after_open. by intros ->. Qed.

Lemma settled_open_trace s b : dbPromise s = Some b -> open_trace s = [].
Proof. unfold open_trace. by intros ->. Qed.

Lemma opened_storage_ok s : dbPromise s = Some true -> storage_ok s = request_ok s.
Proof. unfold storage_ok, db_opens, after_open. by intros ->. Qed.

Lemma persisted_dbPromise s :
  db_opens s = true -> dbPromise (after_request (after_open s)) = Some true.
Proof. intros H. simpl. by apply after_open_dbPromise. Qed.

(** X1.  A [get] that misses the cache and finds in the object store a value
    other than [undefined] returns it, writes it to the cache, and the next
    [get] of that key is answered from the cache without a request. *)
Theorem get_miss_hydrates_cache key value s :
  cache s !! key = None ->
  storage_ok s = true ->
  idb s !! key = Some value ->
  value ≠ VUndefined ->
  ∃ s', get key s = (Ok value, s', open_trace s ++ [EvDbGet key])
        ∧ cache s' = <[key:=value]> (cache s)
        ∧ idb s' = idb s
        ∧ get key s' = (Ok value, s', []).
Proof.
  intros Hc Hst Hi Hv. rewrite (get_miss_ok _ _ Hc Hst), Hi. simpl.
  rewrite bool_decide_eq_true_2 by done.
  eexists. split; [reflexivity|]. simpl. rewrite after_open_cache, after_open_idb.
  split_and!; try done.
  apply get_cached. simpl. rewrite after_open_cache. apply lookup_insert_eq.
Qed.

(** X2.  A [get] that misses the cache and finds nothing in the object store
    (or finds [undefined] there) returns [undefined] and leaves the cache as
    it was, so the next [get] of that key goes to the object store again. *)
Theorem get_miss_of_absent_key_is_not_cached key s :
  cache s !! key = None ->
  storage_ok s = true ->
  default VUndefined (idb s !! key) = VUndefined ->
  ∃ s', get key s = (Ok VUndefined, s', open_trace s ++ [EvDbGet key])
        ∧ cache s' = cache s
        ∧ idb s' = idb s
        ∧ (request_ok s' = true ->
           get key s' = (Ok VUndefined, after_request s', [EvDbGet key])).
Proof.
  intros Hc [Hopen Hreq]%andb_prop Hi.
  rewrite (get_miss_ok _ _ Hc) by (unfold storage_ok; by rewrite Hopen, Hreq).
  rewrite Hi. rewrite bool_decide_eq_false_2 by (intros H; by apply H).
  eexists. split; [reflexivity|]. simpl. rewrite after_open_cache, after_open_idb.
  split_and!; try done.
  intros Hreq'. pose proof (persisted_dbPromise _ Hopen) as Hp.
  rewrite get_miss_ok.
  - rewrite (settled_after_open _ _ Hp), (settled_open_trace _ _ Hp).
    simpl. rewrite after_open_idb, Hi.
    by rewrite bool_decide_eq_false_2 by (intros H; by apply H).
  - simpl. by rewrite after_open_cache.
  - by rewrite (opened_storage_ok _ Hp).
Qed.

Lemma getAll_ok s :
  storage_ok s = true ->
  getAll s =
    (Ok (idb s), with_cache (λ c, idb s ∪ c) (after_request (after_open s)),
     open_trace s ++ [EvDbGetAll]).
Proof.
  intros [Hopen Hreq]%andb_prop. unfold getAll.
  rewrite (bind_run _ _ _ _ _ _ (getDb_run _)), Hopen.
  rewrite (bind_run _ _ _ _ _ _ (dbGetAll_run _)), Hreq.
  rewrite bind_modify. simpl. by rewrite after_open_idb.
Qed.

Lemma getAll_fails s :
  storage_ok s = false ->
  ∃ s' t, getAll s = (Throw PersistenceError, s', t)
          ∧ cache s' = cache s ∧ listeners s' = listeners s
          ∧ channel_closed s' = channel_closed s ∧ idb s' = idb s
          ∧ forallb is_storage_event t = true.
Proof.
  intros Hst. unfold getAll. unfold storage_ok in Hst.
  rewrite (bind_run _ _ _ _ _ _ (getDb_run _)).
  destruct (db_opens s) eqn:Hopen; simpl in Hst.
  - rewrite (bind_run _ _ _ _ _ _ (dbGetAll_run _)), Hst.
    eexists _, _. split; [reflexivity|]. simpl.
    rewrite after_open_cache, after_open_listeners, after_open_closed, after_open_idb.
    split_and!; try done. unfold open_trace. by destruct (dbPromise s).
  - eexists _, _. split; [reflexivity|].
    rewrite after_open_cache, after_open_listeners, after_open_closed, after_open_idb.
    split_and!; try done. unfold open_trace. by destruct (dbPromise s).
Qed.

Lemma forallb_storage_open_trace s e :
  is_storage_event e = true ->
  forallb is_storage_event (open_trace s ++ [e]) = true.
Proof.
  intros He. rewrite forallb_app. simpl. rewrite He.
  unfold open_trace. by destruct (dbPromise s).
Qed.

(** X3.  [get] and [getAll] only read: whatever the state, all they do
    outside is make requests on the object store (no listener call, no
    [CustomEvent], no [postMessage]); the object store, the registry and the
    channel are left as they were; and when they reject it is with the
    storage error, the cache being as it was. *)
Theorem reads_only_read key s :
  (∃ r s' t, get key s = (r, s', t)
     ∧ forallb is_storage_event t = true
     ∧ idb s' = idb s ∧ listeners s' = listeners s
     ∧ channel_closed s' = channel_closed s
     ∧ (∀ e, r = Throw e -> e = PersistenceError ∧ cache s' = cache s))
  ∧ (∃ r s' t, getAll s = (r, s', t)
       ∧ forallb is_storage_event t = true
       ∧ idb s' = idb s ∧ listeners s' = listeners s
       ∧ channel_closed s' = channel_closed s
       ∧ (∀ e, r = Throw e -> e = PersistenceError ∧ cache s' = cache s)).
Proof.
  split.
  - destruct (cache s !! key) as [v|] eqn:Hc.
    { rewrite (get_cached _ _ _ Hc). eexists _, _, _. split; [done|]. by split_and!. }
    destruct (storage_ok s) eqn:Hst.
    + rewrite (get_miss_ok _ _ Hc Hst). eexists _, _, _. split; [done|].
      rewrite forallb_storage_open_trace by done.
      case_bool_decide; simpl;
        rewrite after_open_idb, after_open_listeners, after_open_closed; by split_and!.
    + destruct (get_miss_fails _ _ Hc Hst) as (s' & t & -> & ? & ? & ? & ? & ?).
      eexists _, _, _. split; [done|]. split_and!; try done. by intros ? [= <-].
  - destruct (storage_ok s) eqn:Hst.
    + rewrite (getAll_ok _ Hst). eexists _, _, _. split; [done|].
      rewrite forallb_storage_open_trace by done. simpl.
      rewrite after_open_idb, after_open_listeners, after_open_closed. by split_and!.
    + destruct (getAll_fails _ Hst) as (s' & t & -> & ? & ? & ? & ? & ?).
      eexists _, _, _. split; [done|]. split_and!; try done. by intros ? [= <-].
Qed.


Lemma getDb_failed s :
  dbPromise s = Some false -> getDb s = (Throw PersistenceError, s, []).
Proof.
  intros Hp. rewrite getDb_run.
  rewrite (settled_after_open _ _ Hp), (settled_open_trace _ _ Hp).
  unfold db_opens. by rewrite Hp.
Qed.

(** X5.  A failed open is kept: once [dbPromise] holds the rejected promise,
    every [get] that misses the cache, every [getAll], [set], [delete] and
    [clear] rejects with the storage error without a single request, however
    well the storage would do now; [set], [delete] and [clear] have changed
    the cache all the same. *)
Theorem failed_open_is_never_retried s :
  dbPromise s = Some false ->
  (∀ key, cache s !! key = None -> get key s = (Throw PersistenceError, s, []))
  ∧ getAll s = (Throw PersistenceError, s, [])
  ∧ (∀ key value, rejection key value = None ->
       set key value s = (Throw PersistenceError, with_cache (insert key value) s, []))
  ∧ (∀ key, del key s = (Throw PersistenceError, with_cache (delete key) s, []))
  ∧ clear s = (Throw PersistenceError, with_cache (λ _, ∅) s, []).
Proof.
  intros Hp. split_and!.
  - intros key Hc. rewrite (get_miss_run _ _ Hc).
    by rewrite (bind_run _ _ _ _ _ _ (getDb_failed _ Hp)).
  - unfold getAll. by rewrite (bind_run _ _ _ _ _ _ (getDb_failed _ Hp)).
  - intros key value Hacc. rewrite (set_accepted _ _ _ Hacc).
    by rewrite (bind_run _ _ _ _ _ _ (getDb_failed (with_cache (insert key value) s) Hp)).
  - intros key. rewrite del_run.
    by rewrite (bind_run _ _ _ _ _ _ (getDb_failed (with_cache (delete key) s) Hp)).
  - rewrite clear_run.
    by rewrite (bind_run _ _ _ _ _ _ (getDb_failed (with_cache (λ _, ∅) s) Hp)).
Qed.

(* ------------------------------------------------------------------------ *)
(** ** [delete], further *)

Lemma del_storage_fails key s :
  storage_ok s = false ->
  ∃ s' t, del key s = (Throw PersistenceError, s', t)
          ∧ cache s' = delete key (cache s) ∧ listeners s' = listeners s
          ∧ channel_closed s' = channel_closed s ∧ idb s' = idb s
          ∧ dbPromise s' = dbPromise (after_open s)
          ∧ forallb is_storage_event t = true.
Proof.
  intros Hst. rewrite del_run. unfold storage_ok in Hst.
  rewrite (bind_run _ _ _ _ _ _ (getDb_run _)).
  change (db_opens (with_cache (delete key) s)) with (db_opens s).
  change (open_trace (with_cache (delete key) s)) with (open_trace s).
  assert (dbPromise (after_open (with_cache (delete key) s)) = dbPromise (after_open s)) as Hp.
  { unfold after_open. simpl. by destruct (dbPromise s). }
  assert (request_ok (after_open (with_cache (delete key) s)) = request_ok (after_open s))
    as Hr.
  { unfold after_open. simpl. by destruct (dbPromise s). }
  destruct (db_opens s) eqn:Hopen; simpl in Hst.
  - rewrite (bind_run _ _ _ _ _ _ (dbDelete_run _ _)), Hr, Hst.
    eexists _, _. split; [reflexivity|]. simpl.
    rewrite after_open_cache, after_open_listeners, after_open_closed, after_open_idb.
    split_and!; try done. unfold open_trace. by destruct (dbPromise s).
  - eexists _, _. split; [reflexivity|].
    rewrite after_open_cache, after_open_listeners, after_open_closed, after_open_idb.
    split_and!; try done. unfold open_trace. by destruct (dbPromise s).
Qed.

Lemma del_listener_throws key s :
  storage_ok s = true ->
  quiet VUndefined (cache_get key s) (key_listeners key s) = false ->
  ∃ l s' t, del key s = (Throw (ListenerError l), s', t).
Proof.
  intros Hst Hq. rewrite del_run.
  rewrite (persist_ok _ (with_idb (delete key)) _ _ _ _ (dbDelete_run key))
    by by rewrite storage_ok_with_cache.
  edestruct notify_throws_before_post as (l & t & -> & _).
  - by rewrite (key_listeners_ext _ s) by by rewrite persisted_listeners.
  - by eexists _, _, _.
Qed.

Lemma del_resolves_inv key s s' t :
  del key s = (Ok tt, s', t) ->
  storage_ok s = true
  ∧ quiet VUndefined (cache_get key s) (key_listeners key s) = true
  ∧ channel_closed s = false.
Proof.
  intros Hrun.
  destruct (storage_ok s) eqn:Hst; cycle 1.
  { destruct (del_storage_fails key s Hst) as (? & ? & Hf & _). congruence. }
  destruct (quiet VUndefined (cache_get key s) (key_listeners key s)) eqn:Hq; cycle 1.
  { destruct (del_listener_throws key s Hst Hq) as (? & ? & ? & Hf). congruence. }
  destruct (channel_closed s) eqn:Hch.
  { rewrite (del_post_fails key s Hst Hq Hch) in Hrun. congruence. }
  done.
Qed.

(** X6.  A [delete(key)] that resolves has removed [key] from the cache and
    from the object store and has gone, after the requests on the object
    store, through one call of each listener of [key] with
    [(undefined, oldValue)], one [CustomEvent] and one [postMessage] of
    [{type: 'delete', key, oldValue}], in that order.  [oldValue] is what the
    cache held: for a key that is not in the cache it is [undefined], whether
    or not the object store had a value, and the call is no error. *)
Theorem del_removes_and_notifies key s s' t :
  del key s = (Ok tt, s', t) ->
  cache s' = delete key (cache s)
  ∧ idb s' = delete key (idb s)
  ∧ listeners s' = listeners s
  ∧ t = open_trace s ++ EvDbDelete key
          :: calls VUndefined (cache_get key s) (key_listeners key s)
          ++ [EvDispatch (createEventName (channelName options) key)
                VUndefined (cache_get key s);
              EvPost (DeleteMsg key (cache_get key s))].
Proof.
  intros Hrun. destruct (del_resolves_inv _ _ _ _ Hrun) as (Hst & Hq & Hch).
  rewrite (del_ok _ _ Hst Hq Hch) in Hrun. injection Hrun as <- <-.
  split_and!.
  - simpl. by rewrite after_open_cache.
  - simpl. by rewrite after_open_idb.
  - by rewrite persisted_listeners.
  - unfold notification. by rewrite <- app_assoc.
Qed.

(** X7.  After a [delete(key)] that resolves, a [get(key)] finds the key
    neither in the cache nor in the object store: it makes one request and
    returns [undefined]. *)
Theorem del_then_get key s s' t :
  del key s = (Ok tt, s', t) ->
  request_ok s' = true ->
  get key s' = (Ok VUndefined, after_request s', [EvDbGet key]).
Proof.
  intros Hrun Hreq. destruct (del_resolves_inv _ _ _ _ Hrun) as (Hst & Hq & Hch).
  rewrite (del_ok _ _ Hst Hq Hch) in Hrun. injection Hrun as <- _.
  rewrite <- (storage_ok_with_cache (delete key)) in Hst.
  apply andb_prop in Hst as [Hopen _].
  pose proof (persisted_dbPromise _ Hopen) as Hp.
  set (s2 := with_idb (delete key)
               (after_request (after_open (with_cache (delete key) s)))) in *.
  assert (dbPromise s2 = Some true) as Hp2 by exact Hp.
  rewrite get_miss_ok.
  - rewrite (settled_after_open _ _ Hp2), (settled_open_trace _ _ Hp2).
    assert (idb s2 !! key = None) as -> by (simpl; apply lookup_delete_eq).
    reflexivity.
  - simpl. rewrite after_open_cache. simpl. apply lookup_delete_eq.
  - by rewrite (opened_storage_ok _ Hp2).
Qed.

(** X8.  [delete] and [clear] are not rolled back either: when their
    persistence step fails they reject with the storage error having already
    changed the cache, the object store being as it was and nobody having
    been notified.  After such a [delete(key)], a [get(key)] that the
    storage serves brings the stored value back. *)
Theorem failed_delete_and_clear_keep_cache_change s :
  storage_ok s = false ->
  (∀ key, ∃ s' t,
     del key s = (Throw PersistenceError, s', t)
     ∧ cache s' = delete key (cache s) ∧ idb s' = idb s
     ∧ forallb is_storage_event t = true
     ∧ (∀ stored, idb s !! key = Some stored -> stored ≠ VUndefined ->
          storage_ok s' = true ->
          ∃ s'' t', get key s' = (Ok stored, s'', t')))
  ∧ (∃ s' t,
       clear s = (Throw PersistenceError, s', t)
       ∧ cache s' = ∅ ∧ idb s' = idb s
       ∧ forallb is_storage_event t = true).
Proof.
  intros Hst. split.
  - intros key.
    destruct (del_storage_fails key s Hst) as (s' & t & Hrun & Hc & _ & _ & Hi & _ & Ht).
    exists s', t. split_and!; try done.
    intros stored Hstored Hne Hst'.
    rewrite get_miss_ok; [|by rewrite Hc, lookup_delete_eq|done].
    rewrite Hi, Hstored. simpl. rewrite bool_decide_eq_true_2 by done.
    by eexists _, _.
  - destruct (clear_storage_fails s Hst) as (s' & t & Hrun & Hc & Hi & Ht).
    by exists s', t.
Qed.

(** X9.  After a [clear()] that resolves, a [getAll()] that the storage
    serves returns the empty mapping and leaves the cache empty. *)
Theorem clear_then_getAll s s' t :
  clear s = (Ok tt, s', t) ->
  request_ok s' = true ->
  ∃ s'', getAll s' = (Ok ∅, s'', [EvDbGetAll]) ∧ cache s'' = ∅ ∧ idb s'' = ∅.
Proof.
  intros Hrun Hreq. destruct (clear_resolves_inv _ _ _ Hrun) as (Hst & Hq & Hch).
  rewrite (clear_ok _ Hst Hq Hch) in Hrun. injection Hrun as <- _.
  rewrite <- (storage_ok_with_cache (λ _, ∅)) in Hst.
  apply andb_prop in Hst as [Hopen _].
  pose proof (persisted_dbPromise _ Hopen) as Hp.
  set (s2 := with_idb (λ _, ∅)
               (after_request (after_open (with_cache (λ _, ∅) s)))) in *.
  assert (dbPromise s2 = Some true) as Hp2 by exact Hp.
  rewrite getAll_ok by by rewrite (opened_storage_ok _ Hp2).
  rewrite (settled_after_open _ _ Hp2), (settled_open_trace _ _ Hp2).
  eexists. split; [reflexivity|]. split; [|done].
  simpl. rewrite after_open_cache. simpl. apply (left_id ∅ (∪)).
Qed.

(* ------------------------------------------------------------------------ *)
(** ** A listener that throws *)

Lemma forEach_calls_split value oldValue ls s :
  quiet value oldValue ls = false ->
  ∃ before l after,
    ls = before ++ l :: after
    ∧ quiet value oldValue before = true
    ∧ listener_throws l value oldValue = true
    ∧ forEach (call_listener value oldValue) ls s =
        (Throw (ListenerError l), s, calls value oldValue (before ++ [l])).
Proof.
  induction ls as [|l ls IH]; intros Hq; [done|].
  simpl in Hq.
  rewrite forEach_cons, (bind_run _ _ _ _ _ _ (call_listener_run _ _ _ _)).
  destruct (listener_throws l value oldValue) eqn:Hl.
  - exists [], l, ls. by split_and!.
  - simpl in Hq. destruct (IH Hq) as (before & l' & after & -> & Hb & Hl' & ->).
    exists (l :: before), l', after. split_and!; try done.
    simpl. by rewrite Hl.
Qed.

(** X10.  When a listener of [key] throws during [set(key, value)], the
    value is already in the cache and in the object store; the listeners
    registered before it have been called, those registered after it are
    not, no [CustomEvent] is dispatched and nothing is posted to the other
    contexts; the call rejects with what the listener threw. *)
Theorem throwing_listener_cuts_notification key value s :
  rejection key value = None ->
  storage_ok s = true ->
  quiet value (cache_get key s) (key_listeners key s) = false ->
  ∃ before l after,
    key_listeners key s = before ++ l :: after
    ∧ quiet value (cache_get key s) before = true
    ∧ listener_throws l value (cache_get key s) = true
    ∧ set key value s =
        (Throw (ListenerError l),
         with_idb (insert key value)
           (after_request (after_open (with_cache (insert key value) s))),
         open_trace s ++ EvDbPut key value
           :: calls value (cache_get key s) (before ++ [l])).
Proof.
  intros Hacc Hst Hq. rewrite (set_accepted _ _ _ Hacc).
  rewrite (persist_ok _ (with_idb (insert key value)) _ _ _ _ (dbSet_run key value))
    by by rewrite storage_ok_with_cache.
  set (s2 := with_idb (insert key value)
               (after_request (after_open (with_cache (insert key value) s)))).
  assert (listeners s2 = listeners s) as Hl
    by (unfold s2; by rewrite persisted_listeners).
  unfold key_listeners in *.
  destruct (JsMap.get key (listeners s)) as [ls|] eqn:Hget; [|done]. simpl in Hq.
  destruct (forEach_calls_split _ _ _ s2 Hq) as (before & l & after & -> & Hb & Hthrow & Hrun).
  exists before, l, after. split_and!; try done.
  assert (notifyListeners key value (default VUndefined (cache s !! key)) s2 =
            (Throw (ListenerError l), s2,
             calls value (default VUndefined (cache s !! key)) (before ++ [l]))) as Hnote.
  { unfold notifyListeners. rewrite bind_gets, Hl, Hget.
    by rewrite (bind_run _ _ _ _ _ _ Hrun). }
  by rewrite (bind_run _ _ _ _ _ _ Hnote).
Qed.

(* ------------------------------------------------------------------------ *)
(** ** After [destroy] *)

Lemma destroy_run s : destroy s = (Ok tt, after_destroy s, []).
Proof. reflexivity. Qed.

(** X11.  [destroy()] leaves the object store untouched and the store
    usable in part: with working storage, a [get] of a persisted key opens
    the database again and returns the value; a [set] still writes the cache
    and the object store and dispatches the [CustomEvent] (no listener is
    left to call), then rejects because the channel is closed; and the
    functions returned by earlier [subscribe] calls do nothing. *)
Theorem store_after_destroy s :
  storage_ok (after_destroy s) = true ->
  destroy s = (Ok tt, after_destroy s, [])
  ∧ idb (after_destroy s) = idb s
  ∧ (∀ key stored, idb s !! key = Some stored -> stored ≠ VUndefined ->
       ∃ s', get key (after_destroy s) = (Ok stored, s', [EvDbOpen; EvDbGet key]))
  ∧ (∀ key value, rejection key value = None ->
       ∃ s', set key value (after_destroy s) =
               (Throw TransportError, s',
                [EvDbOpen; EvDbPut key value;
                 EvDispatch (createEventName (channelName options) key) value VUndefined])
             ∧ cache s' = <[key:=value]> ∅
             ∧ idb s' = <[key:=value]> (idb s))
  ∧ (∀ key listener,
       unsubscribe key listener (after_destroy s) = (Ok tt, after_destroy s, [])).
Proof.
  intros Hst. split_and!; try done.
  - intros key stored Hi Hne. rewrite get_miss_ok by done.
    simpl. rewrite Hi. simpl. rewrite bool_decide_eq_true_2 by done. by eexists.
  - intros key value Hacc. rewrite set_post_fails by done.
    eexists. split; [reflexivity|]. done.
Qed.

(* ------------------------------------------------------------------------ *)
(** ** From one context to another *)

(** X12.  What a context posts for a [set(key, value)] that resolves, with
    [value] other than [undefined], makes a receiving store write [value] to
    its cache (so that its next [get(key)] returns [value] without a
    request) and call its listeners of [key] with [value] and the old value
    of the sender's cache, whatever its own cache held; its object store is
    not touched. *)
Theorem set_reaches_other_context key value sender sender' t receiver :
  set key value sender = (Ok tt, sender', t) ->
  value ≠ VUndefined ->
  quiet value (cache_get key sender) (key_listeners key receiver) = true ->
  ∃ m receiver',
    last t = Some (EvPost m)
    ∧ onmessage m receiver =
        (Ok tt, receiver',
         calls value (cache_get key sender) (key_listeners key receiver)
         ++ [EvDispatch (createEventName (channelName options) key)
               value (cache_get key sender)])
    ∧ get key receiver' = (Ok value, receiver', [])
    ∧ idb receiver' = idb receiver.
Proof.
  intros Hrun Hv Hq.
  destruct (set_resolves_inv _ _ _ _ _ Hrun) as (Hacc & Hst & Hqs & Hch).
  rewrite (set_ok _ _ _ Hacc Hst Hqs Hch) in Hrun. injection Hrun as _ <-.
  eexists _, _. split_and!.
  - rewrite app_comm_cons, app_assoc. apply last_snoc.
  - unfold SetMsg. rewrite onmessage_set by done.
    by rewrite notifyListeners_quiet.
  - apply get_cached. simpl. apply lookup_insert_eq.
  - done.
Qed.

(** X13.  What a context posts for a [delete(key)] that resolves makes a
    receiving store drop [key] from its cache and call its listeners of
    [key] with [undefined] and the old value of its own cache; what it posts
    for a [clear()] that resolves makes a receiving store empty its cache
    and notify every key of its registry with [(undefined, undefined)]. *)
Theorem delete_and_clear_reach_other_context receiver :
  (∀ key sender sender' t,
     del key sender = (Ok tt, sender', t) ->
     quiet VUndefined (cache_get key receiver) (key_listeners key receiver) = true ->
     ∃ m, last t = Some (EvPost m)
          ∧ onmessage m receiver =
              (Ok tt, with_cache (delete key) receiver,
               calls VUndefined (cache_get key receiver) (key_listeners key receiver)
               ++ [EvDispatch (createEventName (channelName options) key)
                     VUndefined (cache_get key receiver)]))
  ∧ (∀ sender sender' t,
       clear sender = (Ok tt, sender', t) ->
       quiet_all receiver = true ->
       ∃ m, last t = Some (EvPost m)
            ∧ onmessage m receiver =
                (Ok tt, with_cache (λ _, ∅) receiver, notification_all receiver)).
Proof.
  split.
  - intros key sender sender' t Hrun Hq.
    destruct (del_resolves_inv _ _ _ _ Hrun) as (Hst & Hqs & Hch).
    rewrite (del_ok _ _ Hst Hqs Hch) in Hrun. injection Hrun as _ <-.
    eexists. split.
    + rewrite app_comm_cons, app_assoc. apply last_snoc.
    + unfold DeleteMsg. rewrite onmessage_delete. by rewrite notifyListeners_quiet.
  - intros sender sender' t Hrun Hq.
    destruct (clear_resolves_inv _ _ _ Hrun) as (Hst & Hqs & Hch).
    rewrite (clear_ok _ Hst Hqs Hch) in Hrun. injection Hrun as _ <-.
    eexists. split.
    + rewrite app_comm_cons, app_assoc. apply last_snoc.
    + unfold ClearMsg. rewrite onmessage_clear. by rewrite notifyAll_quiet.
Qed.

(** X14.  Validators guard local writes only: a value that the validator of
    [key] throws on, and that [set] therefore refuses, is written to the
    cache all the same when it comes in a [{type: 'set'}] message, and is
    what the next [get(key)] returns. *)
Theorem inbound_set_skips_validator key value oldValue msg s :
  rejection key value = Some msg ->
  value ≠ VUndefined ->
  quiet value oldValue (key_listeners key s) = true ->
  set key value s = (Throw (ValidationError msg), s, [])
  ∧ ∃ s', onmessage (SetMsg key value oldValue) s
            = (Ok tt, s', notification key value oldValue s)
          ∧ cache s' = <[key:=value]> (cache s)
          ∧ get key s' = (Ok value, s', []).
Proof.
  intros Hrej Hv Hq. split; [by apply set_rejected|].
  unfold SetMsg. rewrite onmessage_set by done.
  rewrite notifyListeners_quiet by done.
  eexists. split_and!; try done.
  apply get_cached. simpl. apply lookup_insert_eq.
Qed.

(* ------------------------------------------------------------------------ *)
(** ** What the operations leave alone *)

#[local] Instance same_state_composable : Composable same_state.
Proof. split; unfold same_state; [done|]. by intros s t s' t' s'' -> ->. Qed.

#[local] Instance same_listeners_composable : Composable same_listeners.
Proof. split; unfold same_listeners; [done|]. by intros s t s' t' s'' <- <-. Qed.

Lemma opens_app t t' : opens (t ++ t') = opens t + opens t'.
Proof. unfold opens. by rewrite filter_app, length_app. Qed.

#[local] Instance open_once_composable : Composable open_once.
Proof.
  split; unfold open_once.
  - done.
  - intros s t s' t' s'' H1 H2. rewrite opens_app. lia.
Qed.

Lemma effect_ret R `{!Composable R} {A} (a : A) : effect R (ret a).
Proof. intros s. apply composable_nil. Qed.

Lemma effect_throw R `{!Composable R} {A} e : effect R (@throw A e).
Proof. intros s. apply composable_nil. Qed.

Lemma effect_gets R `{!Composable R} {A} (g : State -> A) : effect R (gets g).
Proof. intros s. apply composable_nil. Qed.

Lemma effect_bind R `{!Composable R} {A B} (m : M A) (f : A -> M B) :
  effect R m -> (∀ a, effect R (f a)) -> effect R (bind m f).
Proof.
  intros Hm Hf s. unfold bind. specialize (Hm s).
  destruct (m s) as [[[a|e] s1] t1]; simpl in *; [|done].
  specialize (Hf a s1). destruct (f a s1) as [[r s2] t2]; simpl in *.
  by eapply composable_app.
Qed.

Lemma effect_forEach R `{!Composable R} {A} (f : A -> M unit) xs :
  (∀ x, effect R (f x)) -> effect R (forEach f xs).
Proof.
  intros Hf. induction xs as [|x xs IH].
  - by apply effect_ret.
  - rewrite forEach_cons. by apply effect_bind.
Qed.

Ltac effect_steps :=
  repeat first
    [ solve [eauto]
    | apply effect_ret; solve [typeclasses eauto]
    | apply effect_throw; solve [typeclasses eauto]
    | apply effect_gets; solve [typeclasses eauto]
    | apply effect_bind; [solve [typeclasses eauto]| |intros ?]
    | apply effect_forEach; [solve [typeclasses eauto]|intros ?]
    | match goal with
      | |- effect _ (match ?x with _ => _ end) => destruct x
      end
    | done ].

(** Nothing but the state. *)
Lemma notifyListeners_same_state key value oldValue :
  effect same_state (notifyListeners key value oldValue).
Proof. unfold notifyListeners, call_listener, emitLocalEvent. effect_steps. Qed.

Lemma postMessage_same_state m : effect same_state (postMessage m).
Proof. unfold postMessage. effect_steps. Qed.

Lemma notifyAll_same_state : effect same_state notifyAll.
Proof.
  unfold notifyAll. effect_steps.
Qed.

(** The registry. *)
Lemma next_fault_same_listeners : effect same_listeners next_fault.
Proof. intros s. unfold next_fault. by destruct (idb_faults s). Qed.

Lemma request_same_listeners e : effect same_listeners (request e).
Proof. unfold request. effect_steps. apply next_fault_same_listeners. Qed.

Lemma getDb_same_listeners : effect same_listeners getDb.
Proof.
  unfold getDb, openDatabase, await. effect_steps. apply next_fault_same_listeners.
Qed.

Lemma same_state_listeners {A} (m : M A) : effect same_state m -> effect same_listeners m.
Proof. intros H s. unfold same_listeners. by rewrite (H s). Qed.

Lemma get_same_listeners key : effect same_listeners (get key).
Proof.
  unfold get, dbGet. pose proof getDb_same_listeners. pose proof request_same_listeners.
  effect_steps.
Qed.

Lemma getAll_same_listeners : effect same_listeners getAll.
Proof.
  unfold getAll, dbGetAll. pose proof getDb_same_listeners.
  pose proof request_same_listeners. effect_steps.
Qed.

Lemma set_same_listeners key value : effect same_listeners (set key value).
Proof.
  unfold set, dbSet. pose proof getDb_same_listeners. pose proof request_same_listeners.
  pose proof (λ v o, same_state_listeners _ (notifyListeners_same_state key v o)).
  pose proof (λ m, same_state_listeners _ (postMessage_same_state m)).
  effect_steps.
Qed.

Lemma del_same_listeners key : effect same_listeners (del key).
Proof.
  unfold del, dbDelete. pose proof getDb_same_listeners. pose proof request_same_listeners.
  pose proof (λ v o, same_state_listeners _ (notifyListeners_same_state key v o)).
  pose proof (λ m, same_state_listeners _ (postMessage_same_state m)).
  effect_steps.
Qed.

Lemma clear_same_listeners : effect same_listeners clear.
Proof.
  unfold clear, dbClear. pose proof getDb_same_listeners. pose proof request_same_listeners.
  pose proof (same_state_listeners _ notifyAll_same_state).
  pose proof (λ m, same_state_listeners _ (postMessage_same_state m)).
  effect_steps.
Qed.

Lemma onmessage_same_listeners data : effect same_listeners (onmessage data).
Proof.
  intros s. destruct (onmessage_local data s) as (r & t & -> & _). done.
Qed.

(** Runs of calls. *)
Lemma run_effect R `{!Composable R} cs :
  (∀ c, c ∈ cs -> effect R (call c)) ->
  ∀ s, R s (run cs s).2 (run cs s).1.
Proof.
  induction cs as [|c cs IH]; intros Hc s; simpl.
  - apply composable_nil.
  - pose proof (Hc c ltac:(by left) s) as H1.
    destruct (call c s) as [[r s1] t1]; simpl in *.
    assert (∀ c', c' ∈ cs -> effect R (call c')) as Hcs by (intros; apply Hc; by right).
    pose proof (IH Hcs s1) as H2.
    destruct (run cs s1) as [s2 t2]; simpl in *.
    by eapply composable_app.
Qed.

(* ------------------------------------------------------------------------ *)
(** ** The connection is opened once *)

Lemma next_fault_open_once : effect open_once next_fault.
Proof. intros s. unfold next_fault. by destruct (idb_faults s). Qed.

Lemma request_open_once e : is_open e = false -> effect open_once (request e).
Proof.
  intros He. unfold request. pose proof next_fault_open_once.
  assert (effect open_once (emit e)) by (intros s; by destruct e).
  effect_steps.
Qed.

Lemma getDb_open_once : effect open_once getDb.
Proof.
  intros s. rewrite getDb_run. unfold open_once, opened, open_trace, after_open. simpl.
  destruct (dbPromise s) eqn:Hp; rewrite ?Hp; reflexivity.
Qed.

Lemma notifyListeners_open_once key value oldValue :
  effect open_once (notifyListeners key value oldValue).
Proof. unfold notifyListeners, call_listener, emitLocalEvent. effect_steps. Qed.

Lemma postMessage_open_once m : effect open_once (postMessage m).
Proof. unfold postMessage. effect_steps. Qed.

Lemma notifyAll_open_once : effect open_once notifyAll.
Proof.
  unfold notifyAll. pose proof notifyListeners_open_once. effect_steps.
Qed.

Lemma call_open_once c : is_destroy c = false -> effect open_once (call c).
Proof.
  intros Hc.
  pose proof getDb_open_once. pose proof notifyListeners_open_once.
  pose proof postMessage_open_once. pose proof notifyAll_open_once.
  assert (∀ key, effect open_once (request (EvDbGet key)))
    by (intros; by apply request_open_once).
  assert (∀ key value, effect open_once (request (EvDbPut key value)))
    by (intros; by apply request_open_once).
  assert (∀ key, effect open_once (request (EvDbDelete key)))
    by (intros; by apply request_open_once).
  assert (effect open_once (request EvDbGetAll)) by by apply request_open_once.
  assert (effect open_once (request EvDbClear)) by by apply request_open_once.
  destruct c; try done; simpl.
  - unfold get, dbGet. effect_steps.
  - unfold set, dbSet. effect_steps.
  - unfold del, dbDelete. effect_steps.
  - unfold getAll, dbGetAll. effect_steps.
  - unfold clear, dbClear. effect_steps.
  - unfold subscribe. effect_steps.
  - unfold unsubscribe. effect_steps.
  - unfold onmessage. effect_steps.
Qed.

(** X15.  Along any sequence of calls and inbound messages without
    [destroy], [indexedDB.open] is called at most once, and not at all when
    [dbPromise] already holds a promise (even a rejected one). *)
Theorem database_is_opened_at_most_once cs s :
  forallb (λ c, negb (is_destroy c)) cs = true ->
  opens (run cs s).2 ≤ 1
  ∧ (dbPromise s ≠ None -> opens (run cs s).2 = 0).
Proof.
  intros Hcs.
  assert (open_once s (run cs s).2 (run cs s).1) as Hrun.
  { apply run_effect; [typeclasses eauto|]. intros c Hc. apply call_open_once.
    apply list_elem_of_In in Hc.
    apply (proj1 (forallb_forall _ _) Hcs) in Hc. by apply negb_true_iff. }
  unfold open_once, opened in Hrun.
  destruct (dbPromise s), (dbPromise (run cs s).1); split; try done; lia.
Qed.

(* ------------------------------------------------------------------------ *)
(** ** The registry, further *)

Lemma JsMap_set_set {V} k (v v' : V) m :
  JsMap.set k v (JsMap.set k v' m) = JsMap.set k v m.
Proof.
  induction m as [|[k0 v0] m IH]; simpl.
  - by rewrite bool_decide_eq_true_2.
  - case_bool_decide; simpl.
    + by rewrite bool_decide_eq_true_2.
    + rewrite bool_decide_eq_false_2 by done. by rewrite IH.
Qed.

Lemma JsMap_remove_set_absent {V} k (v : V) m :
  JsMap.get k m = None -> JsMap.remove k (JsMap.set k v m) = m.
Proof.
  induction m as [|[k0 v0] m IH]; simpl.
  - by rewrite bool_decide_eq_true_2.
  - case_bool_decide; [done|]. intros Hget. simpl.
    rewrite bool_decide_eq_false_2 by done. by rewrite IH.
Qed.

Lemma JsMap_get_elem_of {V} k (v : V) m : JsMap.get k m = Some v -> (k, v) ∈ m.
Proof.
  induction m as [|[k0 v0] m IH]; simpl; [done|].
  case_bool_decide.
  - intros [= ->]. subst. by left.
  - intros Hget. right. by apply IH.
Qed.

Lemma JsMap_get_None_keys {V} k (m : list (string * V)) :
  JsMap.get k m = None ↔ k ∉ JsMap.keys m.
Proof.
  unfold JsMap.keys. induction m as [|[k0 v0] m IH]; simpl.
  - split; [|done]. intros _ Hin. by apply elem_of_nil in Hin.
  - rewrite not_elem_of_cons. case_bool_decide as Hk.
    + split; [done|]. by intros [? _].
    + rewrite IH. split; [done|]. by intros [_ ?].
Qed.

Lemma JsMap_keys_set {V} k (v : V) m :
  JsMap.keys (JsMap.set k v m) =
    if bool_decide (JsMap.get k m = None) then JsMap.keys m ++ [k] else JsMap.keys m.
Proof.
  unfold JsMap.keys. induction m as [|[k0 v0] m IH]; [done|].
  cbn [JsMap.set JsMap.get].
  destruct (decide (k = k0)) as [->|Hne].
  - rewrite !bool_decide_eq_true_2 by done.
    by rewrite bool_decide_eq_false_2.
  - rewrite !(bool_decide_eq_false_2 (k = k0)) by done.
    rewrite !fmap_cons, IH. by case_bool_decide.
Qed.

Lemma JsMap_keys_remove {V} k (m : list (string * V)) :
  JsMap.keys (JsMap.remove k m) = filter (λ k', k' ≠ k) (JsMap.keys m).
Proof.
  unfold JsMap.keys. induction m as [|[k0 v0] m IH]; [done|].
  cbn [JsMap.remove]. rewrite fmap_cons, filter_cons. simpl.
  destruct (decide (k = k0)) as [->|Hne].
  - rewrite bool_decide_eq_true_2 by done.
    by rewrite decide_False by (intros H; by apply H).
  - rewrite bool_decide_eq_false_2 by done.
    rewrite decide_True by done. by rewrite fmap_cons, IH.
Qed.

Lemma JsMap_remove_set {V} k (v : V) m :
  JsMap.remove k (JsMap.set k v m) = JsMap.remove k m.
Proof.
  induction m as [|[k0 v0] m IH]; simpl.
  - by rewrite bool_decide_eq_true_2.
  - case_bool_decide; simpl.
    + by rewrite bool_decide_eq_true_2.
    + rewrite bool_decide_eq_false_2 by done. by rewrite IH.
Qed.

Lemma JsMap_Forall_set {V} (P : string * V -> Prop) k v m :
  Forall P m -> P (k, v) -> Forall P (JsMap.set k v m).
Proof.
  intros Hm Hkv. induction Hm as [|[k0 v0] m Hx Hm IH]; simpl.
  - by constructor.
  - case_bool_decide; by constructor.
Qed.

Lemma JsMap_Forall_remove {V} (P : string * V -> Prop) k m :
  Forall P m -> Forall P (JsMap.remove k m).
Proof.
  intros Hm. induction Hm as [|[k0 v0] m Hx Hm IH]; simpl; [done|].
  case_bool_decide; [done|]. by constructor.
Qed.

Lemma JsMap_NoDup_keys_set {V} k (v : V) m :
  NoDup (JsMap.keys m) -> NoDup (JsMap.keys (JsMap.set k v m)).
Proof.
  intros Hm. rewrite JsMap_keys_set. case_bool_decide as Hk; [|done].
  apply NoDup_app. split_and!; [done| |apply NoDup_singleton].
  intros k' Hin ->%list_elem_of_singleton. by apply JsMap_get_None_keys in Hk.
Qed.

Lemma JsMap_NoDup_keys_remove {V} k (m : list (string * V)) :
  NoDup (JsMap.keys m) -> NoDup (JsMap.keys (JsMap.remove k m)).
Proof. intros Hm. rewrite JsMap_keys_remove. by apply NoDup_filter. Qed.

Lemma JsSet_NoDup_add x xs : NoDup xs -> NoDup (JsSet.add x xs).
Proof.
  intros Hxs. unfold JsSet.add. case_bool_decide as Hin; [done|].
  apply NoDup_app. split_and!; [done| |apply NoDup_singleton].
  by intros y Hy ->%list_elem_of_singleton.
Qed.

Lemma JsSet_add_nonempty x xs : JsSet.add x xs ≠ [].
Proof.
  unfold JsSet.add. case_bool_decide as Hin.
  - intros ->. by apply elem_of_nil in Hin.
  - by destruct xs.
Qed.

Lemma registry_with_wf key listener m :
  registry_wf m -> registry_wf (registry_with key listener m).
Proof.
  intros [Hkeys Hall]. unfold registry_with, JsMap.has.
  case_bool_decide as Hhas.
  - destruct Hhas as [ls Hget]. rewrite Hget. simpl. split.
    + by apply JsMap_NoDup_keys_set.
    + apply JsMap_Forall_set; [done|]. simpl. split; [apply JsSet_add_nonempty|].
      apply JsSet_NoDup_add.
      apply JsMap_get_elem_of in Hget.
      by apply (proj1 (Forall_forall _ _) Hall) in Hget as [_ ?].
  - rewrite JsMap_get_set_eq. simpl. rewrite JsMap_set_set. split.
    + by apply JsMap_NoDup_keys_set.
    + apply JsMap_Forall_set; [done|]. simpl. split; [done|]. apply NoDup_singleton.
Qed.

Lemma registry_without_wf key listener m :
  registry_wf m -> registry_wf (registry_without key listener m).
Proof.
  intros [Hkeys Hall]. unfold registry_without.
  destruct (JsMap.get key m) as [ls|] eqn:Hget; [|done].
  case_bool_decide as Hlen.
  - rewrite JsMap_remove_set. split.
    + by apply JsMap_NoDup_keys_remove.
    + by apply JsMap_Forall_remove.
  - split.
    + by apply JsMap_NoDup_keys_set.
    + apply JsMap_Forall_set; [done|]. simpl. split.
      * intros Hnil. by rewrite Hnil in Hlen.
      * apply NoDup_filter. apply JsMap_get_elem_of in Hget.
        by apply (proj1 (Forall_forall _ _) Hall) in Hget as [_ ?].
Qed.

#[local] Instance keeps_registry_wf_composable : Composable keeps_registry_wf.
Proof. split; unfold keeps_registry_wf; [done|]. intros s t s' t' s'' H1 H2 ?. auto. Qed.

Lemma same_listeners_keeps_wf {A} (m : M A) :
  effect same_listeners m -> effect keeps_registry_wf m.
Proof. intros H s. unfold keeps_registry_wf. by rewrite (H s). Qed.

Lemma call_keeps_registry_wf c : effect keeps_registry_wf (call c).
Proof.
  destruct c; simpl.
  - apply same_listeners_keeps_wf. pose proof (get_same_listeners key). effect_steps.
  - apply same_listeners_keeps_wf, set_same_listeners.
  - apply same_listeners_keeps_wf, del_same_listeners.
  - apply same_listeners_keeps_wf. pose proof getAll_same_listeners. effect_steps.
  - apply same_listeners_keeps_wf, clear_same_listeners.
  - intros s. unfold bind. rewrite subscribe_run. simpl.
    intros Hwf. by apply registry_with_wf.
  - intros s. rewrite unsubscribe_run. simpl.
    intros Hwf. by apply registry_without_wf.
  - intros s _. simpl. split; [apply NoDup_nil_2|by apply Forall_nil].
  - apply same_listeners_keeps_wf, onmessage_same_listeners.
Qed.

(** X16.  Along any sequence of calls and inbound messages, the registry
    keeps its shape: every key has one entry, no entry has an empty set of
    listeners, and no listener is twice in a set.  The registry of a new
    store has that shape. *)
Theorem registry_shape_is_kept cs s :
  registry_wf (listeners s) ->
  registry_wf (listeners (run cs s).1).
Proof.
  apply (run_effect keeps_registry_wf cs).
  intros c _. apply call_keeps_registry_wf.
Qed.

Lemma not_subscribed_after_unsubscribe key listener m :
  ∀ ls, JsMap.get key (registry_without key listener m) = Some ls -> listener ∉ ls.
Proof.
  intros ls. rewrite registry_without_key.
  destruct (JsMap.get key m) as [ls0|]; [|done].
  case_bool_decide; [done|]. intros [= <-].
  unfold JsSet.remove. rewrite list_elem_of_filter. by intros [? _].
Qed.

Lemma registry_with_present key listener m ls :
  JsMap.get key m = Some ls -> listener ∈ ls -> registry_with key listener m = m.
Proof.
  intros Hget Hin. unfold registry_with, JsMap.has. rewrite Hget.
  rewrite bool_decide_eq_true_2 by done. rewrite Hget. simpl.
  unfold JsSet.add. rewrite bool_decide_eq_true_2 by done.
  by apply JsMap_set_id.
Qed.

Lemma JsSet_add_elem_of x xs : x ∈ JsSet.add x xs.
Proof.
  unfold JsSet.add. case_bool_decide; [done|].
  apply elem_of_app. right. by constructor.
Qed.

Lemma registry_with_get key listener m :
  ∃ ls, JsMap.get key (registry_with key listener m) = Some ls ∧ listener ∈ ls.
Proof.
  unfold registry_with. rewrite JsMap_get_set_eq. eexists. split; [done|].
  apply JsSet_add_elem_of.
Qed.

(** X17.  The registry holds a listener at most once per key: a second
    [subscribe(key, listener)] with the same function changes nothing, and
    one call of either returned function ends the subscription. *)
Theorem subscribe_twice_is_once key listener s :
  ∃ s1, subscribe key listener s = (Ok (unsubscribe key listener), s1, [])
        ∧ subscribe key listener s1 = (Ok (unsubscribe key listener), s1, [])
        ∧ ∃ s2, unsubscribe key listener s1 = (Ok tt, s2, [])
                ∧ ¬ subscribed key listener s2.
Proof.
  clear options listener_throws.
  rewrite subscribe_run. eexists. split; [done|]. split.
  - rewrite subscribe_run. f_equal. f_equal.
    unfold with_listeners at 1. simpl.
    destruct (registry_with_get key listener (listeners s)) as (ls & Hget & Hin).
    by rewrite (registry_with_present _ _ _ _ Hget Hin).
  - rewrite unsubscribe_run. eexists. split; [done|].
    intros (ls & Hget & Hin). simpl in Hget.
    by apply not_subscribed_after_unsubscribe in Hget.
Qed.

(** X18.  [subscribe(key, listener)] with a function not yet registered for
    [key] puts it last among the listeners of [key], so that it is called
    after those registered before it, and leaves the listeners of every
    other key as they were. *)
Theorem subscribe_appends key listener s :
  ¬ subscribed key listener s ->
  ∃ s', subscribe key listener s = (Ok (unsubscribe key listener), s', [])
        ∧ key_listeners key s' = key_listeners key s ++ [listener]
        ∧ (∀ k, k ≠ key -> key_listeners k s' = key_listeners k s)
        ∧ (∀ value oldValue,
             calls value oldValue (key_listeners key s')
             = calls value oldValue (key_listeners key s)
               ++ [EvListener listener value oldValue]).
Proof.
  intros Hnot. rewrite subscribe_run. eexists. split; [done|].
  assert (key_listeners key (with_listeners (registry_with key listener) s)
          = key_listeners key s ++ [listener]) as Hkey.
  { unfold key_listeners, registry_with, JsMap.has. simpl.
    rewrite JsMap_get_set_eq. simpl.
    destruct (JsMap.get key (listeners s)) as [ls|] eqn:Hget.
    - rewrite bool_decide_eq_true_2 by done. rewrite Hget. simpl.
      unfold JsSet.add. rewrite bool_decide_eq_false_2; [done|].
      intros Hin. apply Hnot. by exists ls.
    - rewrite bool_decide_eq_false_2 by by intros [??].
      by rewrite JsMap_get_set_eq. }
  split_and!.
  - exact Hkey.
  - intros k Hk. unfold key_listeners, registry_with. simpl.
    rewrite JsMap_get_set_ne by done.
    destruct (JsMap.has key (listeners s)); [done|].
    by rewrite JsMap_get_set_ne.
  - intros value oldValue. rewrite Hkey. unfold calls. by rewrite fmap_app.
Qed.

(** X19.  On a registry of the shape above, subscribing a function that is
    not registered for [key] and then calling the returned function gives
    the registry back as it was, entry for entry. *)
Theorem subscribe_unsubscribe_restores key listener s :
  registry_wf (listeners s) ->
  ¬ subscribed key listener s ->
  ∃ unsub s1,
    subscribe key listener s = (Ok unsub, s1, [])
    ∧ unsub s1 = (Ok tt, s, []).
Proof.
  intros [_ Hall] Hnot. rewrite subscribe_run. eexists _, _. split; [done|].
  rewrite unsubscribe_run. f_equal. f_equal.
  rewrite <- (state_eta s) at 2. unfold with_listeners. simpl. f_equal.
  unfold registry_without, registry_with, JsMap.has.
  destruct (JsMap.get key (listeners s)) as [ls|] eqn:Hget.
  - rewrite bool_decide_eq_true_2 by done. rewrite Hget. simpl.
    rewrite JsMap_get_set_eq.
    assert (listener ∉ ls) as Hin by (intros Hin; apply Hnot; by exists ls).
    assert (ls ≠ []) as Hne.
    { apply JsMap_get_elem_of in Hget.
      by apply (proj1 (Forall_forall _ _) Hall) in Hget as [? _]. }
    unfold JsSet.add. rewrite (bool_decide_eq_false_2 (listener ∈ ls)) by done.
    assert (JsSet.remove listener (ls ++ [listener]) = ls) as ->.
    { unfold JsSet.remove. rewrite filter_app.
      rewrite (filter_cons _ listener), decide_False by (intros H; by apply H).
      rewrite filter_nil, app_nil_r.
      clear -Hin. induction ls as [|x ls IH]; [done|].
      apply not_elem_of_cons in Hin as [Hx Hin].
      rewrite filter_cons, decide_True by done. by rewrite IH. }
    rewrite bool_decide_eq_false_2 by by destruct ls.
    rewrite JsMap_set_set. by apply JsMap_set_id.
  - rewrite bool_decide_eq_false_2 by by intros [??].
    rewrite !JsMap_get_set_eq. simpl.
    assert (JsSet.add listener [] = [listener]) as -> by done.
    assert (JsSet.remove listener [listener] = []) as ->.
    { unfold JsSet.remove. by rewrite filter_cons, decide_False by (intros H; by apply H). }
    simpl. rewrite !JsMap_set_set.
    by apply JsMap_remove_set_absent.
Qed.

(* ------------------------------------------------------------------------ *)
(** ** Cache and object store *)

#[local] Instance keeps_coherent_composable : Composable keeps_coherent.
Proof. split; unfold keeps_coherent; [done|]. intros s t s' t' s'' H1 H2 ?. auto. Qed.

Lemma healthy_faults fs :
  Forall (λ failed, failed = false) fs ->
  hd false fs = false ∧ Forall (λ failed, failed = false) (tl fs).
Proof. intros [|f fs' Hf Hfs]; simpl; [by split|]. by split. Qed.

Lemma healthy_storage_ok s : healthy s -> storage_ok s = true.
Proof.
  intros [Hp Hf]. unfold storage_ok, db_opens, request_ok, after_open.
  destruct (healthy_faults _ Hf) as [Hhd Htl].
  destruct (dbPromise s) as [[]|] eqn:Hdb; [|done|]; simpl.
  - by rewrite Hhd.
  - rewrite Hhd. simpl. by destruct (healthy_faults _ Htl) as [-> _].
Qed.

Lemma healthy_persisted s : healthy s -> healthy (after_request (after_open s)).
Proof.
  intros [Hp Hf]. unfold healthy, after_request, after_open.
  destruct (healthy_faults _ Hf) as [Hhd Htl].
  destruct (dbPromise s) as [[]|] eqn:Hdb; [|done|]; simpl.
  - by rewrite Hdb.
  - split; [|by destruct (healthy_faults _ Htl)].
    unfold db_opens. rewrite Hdb, Hhd. done.
Qed.

(** Where a write that got past its persistence step ends, whatever comes of
    its notifications. *)
Lemma write_final_state (op : M unit) (upd : State -> State) e (k : M unit) s :
  (∀ s0, op s0 = (if request_ok s0 then Ok tt else Throw PersistenceError,
                  if request_ok s0 then upd (after_request s0) else after_request s0, [e])) ->
  storage_ok s = true ->
  effect same_state k ->
  ((getDb ;; op ;; k) s).1.2 = upd (after_request (after_open s)).
Proof.
  intros Hop Hst Hk. rewrite (persist_ok _ _ _ _ _ _ Hop Hst).
  specialize (Hk (upd (after_request (after_open s)))).
  by destruct (k _) as [[r s'] t].
Qed.

Lemma notify_post_same_state key value oldValue m :
  effect same_state (notifyListeners key value oldValue ;; postMessage m).
Proof.
  pose proof (notifyListeners_same_state key value oldValue).
  pose proof (postMessage_same_state m). effect_steps.
Qed.

Lemma notifyAll_post_same_state m : effect same_state (notifyAll ;; postMessage m).
Proof.
  pose proof notifyAll_same_state. pose proof (postMessage_same_state m). effect_steps.
Qed.

Lemma call_keeps_coherent c : is_message c = false -> effect keeps_coherent (call c).
Proof.
  intros Hc s [Hh Hsub]. pose proof (healthy_storage_ok _ Hh) as Hst.
  pose proof (healthy_persisted _ Hh) as Hh'.
  destruct c; try done; simpl.
  - (* get *)
    unfold bind at 1.
    destruct (cache s !! key) as [v|] eqn:Hcache.
    { rewrite (get_cached _ _ _ Hcache). by split. }
    rewrite (get_miss_ok _ _ Hcache Hst). case_bool_decide as Hv; simpl.
    + split; [done|]. simpl. rewrite after_open_cache, after_open_idb.
      destruct (idb s !! key) as [v|] eqn:Hidb; [|done]. simpl.
      by apply insert_subseteq_l.
    + split; [done|]. simpl. by rewrite after_open_cache, after_open_idb.
  - (* set *)
    destruct (rejection key value) as [msg|] eqn:Hrej.
    { rewrite (set_rejected _ _ _ _ Hrej). by split. }
    rewrite (set_accepted _ _ _ Hrej).
    rewrite (write_final_state _ (with_idb (insert key value)) _ _ _ (dbSet_run key value));
      [|by rewrite storage_ok_with_cache|apply notify_post_same_state].
    split.
    + apply (healthy_persisted (with_cache (insert key value) s)). exact Hh.
    + simpl. rewrite after_open_cache, after_open_idb. simpl. by apply insert_mono.
  - (* delete *)
    rewrite del_run.
    rewrite (write_final_state _ (with_idb (delete key)) _ _ _ (dbDelete_run key));
      [|by rewrite storage_ok_with_cache|apply notify_post_same_state].
    split.
    + apply (healthy_persisted (with_cache (delete key) s)). exact Hh.
    + simpl. rewrite after_open_cache, after_open_idb. simpl. by apply delete_mono.
  - (* getAll *)
    unfold bind at 1. rewrite (getAll_ok _ Hst). simpl.
    split; [done|]. simpl. rewrite after_open_cache, after_open_idb.
    by apply map_union_least.
  - (* clear *)
    rewrite clear_run.
    rewrite (write_final_state _ (with_idb (λ _, ∅)) _ _ _ dbClear_run);
      [|by rewrite storage_ok_with_cache|apply notifyAll_post_same_state].
    split.
    + apply (healthy_persisted (with_cache (λ _, ∅) s)). exact Hh.
    + simpl. rewrite after_open_cache. simpl. apply map_empty_subseteq.
  - (* subscribe *)
    unfold bind at 1. rewrite subscribe_run. by split.
  - (* unsubscribe *)
    rewrite unsubscribe_run. by split.
  - (* destroy *)
    split.
    + destruct Hh as [_ Hf]. by split.
    + apply map_empty_subseteq.
Qed.

(** X20.  In a page whose storage works (no failed open is cached, no
    request to come fails) and whose cache agrees with the object store,
    they still agree after any sequence of calls of the store: whatever the
    cache holds for a key is what the object store holds for it, whether or
    not listeners throw and the channel is open.  (Inbound messages are left
    out: they change the cache alone.) *)
Theorem cache_agrees_with_store cs s :
  healthy s ->
  cache s ⊆ idb s ->
  forallb (λ c, negb (is_message c)) cs = true ->
  healthy (run cs s).1
  ∧ cache (run cs s).1 ⊆ idb (run cs s).1
  ∧ (∀ key value, cache (run cs s).1 !! key = Some value ->
       idb (run cs s).1 !! key = Some value).
Proof.
  intros Hh Hsub Hcs.
  assert (coherent (run cs s).1) as [Hh' Hsub'].
  { apply (run_effect keeps_coherent cs); [|by split].
    intros c Hc. apply call_keeps_coherent.
    apply list_elem_of_In in Hc.
    apply (proj1 (forallb_forall _ _) Hcs) in Hc. by apply negb_true_iff. }
  split_and!; try done.
  intros key value Hc. by eapply lookup_weaken.
Qed.

(* ------------------------------------------------------------------------ *)
(** ** One write after another *)

(** X26.  Of two [set] calls on the same key that resolve one after the
    other, the second notifies with the value of the first as [oldValue]:
    its listeners (those the key had all along), its [CustomEvent] and its
    message carry [(value2, value1)], and a [get] made next returns
    [value2]. *)
Theorem consecutive_sets_chain_old_value key value1 value2 s s1 t1 s2 t2 :
  set key value1 s = (Ok tt, s1, t1) ->
  set key value2 s1 = (Ok tt, s2, t2) ->
  t2 = EvDbPut key value2
         :: calls value2 value1 (key_listeners key s)
         ++ [EvDispatch (createEventName (channelName options) key) value2 value1;
             EvPost (SetMsg key value2 value1)]
  ∧ get key s2 = (Ok value2, s2, []).
Proof.
  intros Hrun1 Hrun2.
  destruct (set_resolves_inv _ _ _ _ _ Hrun1) as (Hacc1 & Hst1 & Hq1 & Hch1).
  rewrite (set_ok _ _ _ Hacc1 Hst1 Hq1 Hch1) in Hrun1. injection Hrun1 as <- _.
  rewrite <- (storage_ok_with_cache (insert key value1)) in Hst1.
  apply andb_prop in Hst1 as [Hopen1 _].
  pose proof (persisted_dbPromise _ Hopen1) as Hp.
  set (s1 := with_idb (insert key value1)
               (after_request (after_open (with_cache (insert key value1) s)))) in *.
  assert (dbPromise s1 = Some true) as Hp1 by exact Hp.
  assert (cache_get key s1 = value1) as Hold.
  { unfold cache_get, s1. simpl. rewrite after_open_cache. simpl.
    by rewrite lookup_insert_eq. }
  assert (key_listeners key s1 = key_listeners key s) as Hls.
  { apply key_listeners_ext. unfold s1. by rewrite persisted_listeners. }
  destruct (set_resolves_inv _ _ _ _ _ Hrun2) as (Hacc2 & Hst2 & Hq2 & Hch2).
  rewrite (set_ok _ _ _ Hacc2 Hst2 Hq2 Hch2) in Hrun2. injection Hrun2 as <- <-.
  split.
  - rewrite (settled_open_trace _ _ Hp1). unfold notification.
    rewrite Hold, Hls. simpl. by rewrite <- app_assoc.
  - apply get_cached. simpl. rewrite after_open_cache. simpl. apply lookup_insert_eq.
Qed.

(* ------------------------------------------------------------------------ *)
(** ** Event names *)

Lemma string_app_cons x (a b : string) : String x a +:+ b = String x (a +:+ b).
Proof. reflexivity. Qed.

Lemma string_app_assoc (a b c : string) : (a +:+ b) +:+ c = a +:+ (b +:+ c).
Proof. induction a as [|x a IH]; [done|]. rewrite !string_app_cons. by rewrite IH. Qed.

Lemma string_length_app (a b : string) :
  String.length (a +:+ b) = String.length a + String.length b.
Proof.
  induction a as [|x a IH]; [done|]. rewrite string_app_cons. simpl. by rewrite IH.
Qed.


(** X21.  For one channel name, different keys have different event names:
    a [CustomEvent] dispatched for one key is never taken for that of
    another key of the same channel. *)
Theorem createEventName_inj_key channel key key' :
  key ≠ key' -> createEventName channel key ≠ createEventName channel key'.
Proof.
  unfold createEventName. intros Hne H. apply Hne.
  apply (inj (String.app "store:")) in H.
  apply (inj (String.app channel)) in H.
  by apply (inj (String.app ":")) in H.
Qed.

(** X22.  Across channel names the event names collide: with a colon in the
    channel name or in the key, two different (channel, key) pairs give the
    same event name. *)
Theorem createEventName_collides (a b c : string) :
  createEventName (a +:+ ":" +:+ b) c = createEventName a (b +:+ ":" +:+ c)
  ∧ a +:+ ":" +:+ b ≠ a.
Proof.
  unfold createEventName. split.
  - f_equal. by rewrite !string_app_assoc.
  - intros H. assert (String.length (a +:+ ":" +:+ b) = String.length a) as Hlen
      by by rewrite H.
    rewrite !string_length_app in Hlen. simpl in Hlen. lia.
Qed.

(* ------------------------------------------------------------------------ *)
(** ** [subscribeToKey] *)

Lemma filter_ne_not_elem {A} `{EqDecision A} (x : A) (l : list A) :
  x ∉ l -> filter (λ y, y ≠ x) l = l.
Proof.
  induction l as [|y l IH]; [done|]. intros [Hy Hl]%not_elem_of_cons.
  rewrite filter_cons, decide_True by done. by rewrite IH.
Qed.

Lemma fresh_handler_not_registered w eventName listener :
  window_wf w -> (eventName, mkHandler (fresh w) listener) ∉ registered w.
Proof. intros Hwf Hin. apply Hwf in Hin. simpl in Hin. lia. Qed.

Lemma subscribeToKey_run channel key listener w :
  window_wf w ->
  subscribeToKey channel key listener w =
    (removeEventListener (createEventName channel key) (mkHandler (fresh w) listener),
     mkWindow (registered w
               ++ [(createEventName channel key, mkHandler (fresh w) listener)])
              (S (fresh w))).
Proof.
  intros Hwf. unfold subscribeToKey, addEventListener. simpl.
  rewrite bool_decide_eq_false_2; [done|].
  by apply fresh_handler_not_registered.
Qed.

Lemma subscribeToKey_wf channel key listener w :
  window_wf w -> window_wf (subscribeToKey channel key listener w).2.
Proof.
  intros Hwf. rewrite subscribeToKey_run by done. simpl.
  intros name h [Hin|Hin]%elem_of_app; simpl.
  - apply Hwf in Hin. lia.
  - apply list_elem_of_singleton in Hin. injection Hin as -> ->. simpl. lia.
Qed.

Lemma dispatchEvent_snoc eventName value oldValue regs n name h :
  dispatchEvent eventName value oldValue (mkWindow (regs ++ [(name, h)]) n) =
    dispatchEvent eventName value oldValue (mkWindow regs n)
    ++ (if decide (name = eventName) then [EvListener (hlistener h) value oldValue] else []).
Proof.
  unfold dispatchEvent. simpl. rewrite filter_app, fmap_app. f_equal.
  rewrite filter_cons. simpl. by case_decide.
Qed.

Lemma dispatchEvent_fresh eventName value oldValue regs n n' :
  dispatchEvent eventName value oldValue (mkWindow regs n) =
  dispatchEvent eventName value oldValue (mkWindow regs n').
Proof. reflexivity. Qed.







Lemma removeEventListener_snoc_same name h regs n :
  (name, h) ∉ regs ->
  removeEventListener name h (mkWindow (regs ++ [(name, h)]) n) = mkWindow regs n.
Proof.
  intros Hin. unfold removeEventListener. simpl. f_equal.
  rewrite filter_app, (filter_ne_not_elem _ _ Hin).
  rewrite filter_cons, decide_False by (intros H; by apply H).
  by rewrite app_nil_r.
Qed.

Lemma removeEventListener_snoc_other name h entry regs n :
  entry ≠ (name, h) ->
  removeEventListener name h (mkWindow (regs ++ [entry]) n) =
    mkWindow (registered (removeEventListener name h (mkWindow regs n)) ++ [entry]) n.
Proof.
  intros Hne. unfold removeEventListener. simpl. f_equal.
  rewrite filter_app. f_equal. by rewrite filter_cons, decide_True.
Qed.

(** X24.  Unlike [subscribe], [subscribeToKey] does not merge two
    registrations of the same function: registered twice for a key, the
    listener is called twice for each event of that key; the function
    returned by the first registration takes one of the two calls away, and
    the two returned functions together leave the handlers of the window as
    they were. *)
Theorem standalone_subscriptions_do_not_merge channel key listener value oldValue w :
  window_wf w ->
  let name := createEventName channel key in
  let '(unsub1, w1) := subscribeToKey channel key listener w in
  let '(unsub2, w2) := subscribeToKey channel key listener w1 in
  dispatchEvent name value oldValue w2 =
    dispatchEvent name value oldValue w
    ++ [EvListener listener value oldValue; EvListener listener value oldValue]
  ∧ dispatchEvent name value oldValue (unsub1 w2) =
      dispatchEvent name value oldValue w ++ [EvListener listener value oldValue]
  ∧ registered (unsub2 (unsub1 w2)) = registered w.
Proof.
  intros Hwf name. subst name.
  pose proof (subscribeToKey_wf channel key listener w Hwf) as Hwf1.
  rewrite (subscribeToKey_run _ _ _ w Hwf) in *.
  set (name := createEventName channel key) in *.
  set (h1 := mkHandler (fresh w) listener) in *.
  cbn [snd] in Hwf1.
  rewrite (subscribeToKey_run _ _ _ _ Hwf1). fold name. cbn [registered fresh].
  set (h2 := mkHandler (S (fresh w)) listener).
  assert ((name, h1) ∉ registered w) as Hfresh1
    by by apply fresh_handler_not_registered.
  assert ((name, h2) ∉ registered w) as Hfresh2.
  { intros Hin. apply Hwf in Hin. simpl in Hin. lia. }
  assert ((name, h2) ≠ (name, h1)) as Hne by (intros [= H]; lia).
  assert (removeEventListener name h1
            (mkWindow ((registered w ++ [(name, h1)]) ++ [(name, h2)]) (S (S (fresh w))))
          = mkWindow (registered w ++ [(name, h2)]) (S (S (fresh w)))) as Hunsub1.
  { rewrite removeEventListener_snoc_other by done.
    by rewrite removeEventListener_snoc_same. }
  split_and!.
  - rewrite !dispatchEvent_snoc, !decide_True by done.
    rewrite <- app_assoc. by destruct w.
  - rewrite Hunsub1. rewrite dispatchEvent_snoc, decide_True by done.
    by destruct w.
  - rewrite Hunsub1. by rewrite removeEventListener_snoc_same.
Qed.

(** X25.  The function returned by [subscribeToKey] removes the handler of
    that registration and no other; calling it again changes nothing; and
    called right after the registration it leaves the handlers of the window
    as they were before. *)
Theorem standalone_unsubscribe_is_exact channel key listener w :
  window_wf w ->
  let '(unsub, w') := subscribeToKey channel key listener w in
  registered (unsub w') = registered w
  ∧ ∀ w0,
      (∀ entry, entry ∈ registered (unsub w0) ↔
                entry ∈ registered w0
                ∧ entry ≠ (createEventName channel key, mkHandler (fresh w) listener))
      ∧ unsub (unsub w0) = unsub w0.
Proof.
  clear options listener_throws.
  intros Hwf. rewrite subscribeToKey_run by done. split.
  - unfold removeEventListener. simpl. rewrite filter_app.
    rewrite filter_ne_not_elem by by apply fresh_handler_not_registered.
    rewrite filter_cons, decide_False by (intros H; by apply H).
    by rewrite app_nil_r.
  - intros w0. split.
    + intros entry. unfold removeEventListener. simpl.
      rewrite list_elem_of_filter. tauto.
    + unfold removeEventListener. simpl. f_equal.
      apply filter_ne_not_elem. rewrite list_elem_of_filter. by intros [? _].
Qed.

End CreateStore.

(* ------------------------------------------------------------------------ *)
(** ** The statements at work on the example store *)

Lemma destroy_demo_state : destroy demo_state = (Ok tt, demo_state_destroyed, []).
Proof. reflexivity. Qed.

Lemma set_rejected_has_no_effect_witness :
  ∃ s', set demo_options no_throw "username" (VNum 12345) demo_state
          = (Throw (ValidationError "username must be a string"), s', [])
        ∧ s' = demo_state ∧ cache s' = cache demo_state ∧ idb s' = idb demo_state
        ∧ get "username" s' = get "username" demo_state.
Proof.
  apply (set_rejected_has_no_effect demo_options no_throw
           "username" (VNum 12345) username_validator "username must be a string" demo_state);
    reflexivity.
Defined.

Lemma set_notifies_once_in_order_witness :
  let run := set demo_options no_throw "user" (VStr "Alice") demo_state in
  run.1.1 = Ok tt
  ∧ run.2 =
      [EvDbPut "user" (VStr "Alice");
       EvListener 1 (VStr "Alice") (VStr "Bob");
       EvListener 2 (VStr "Alice") (VStr "Bob");
       EvDispatch "store:my-app:user" (VStr "Alice") (VStr "Bob");
       EvPost (SetMsg "user" (VStr "Alice") (VStr "Bob"))]
  ∧ filter (λ e, is_storage_event e = false) run.2 =
      [EvListener 1 (VStr "Alice") (VStr "Bob");
       EvListener 2 (VStr "Alice") (VStr "Bob");
       EvDispatch "store:my-app:user" (VStr "Alice") (VStr "Bob");
       EvPost (SetMsg "user" (VStr "Alice") (VStr "Bob"))].
Proof.
  intros run. split; [reflexivity|].
  apply (set_notifies_once_in_order demo_options no_throw
           "user" (VStr "Alice") demo_state run.1.2 run.2).
  reflexivity.
Defined.

Lemma set_keeps_cache_when_persistence_fails_witness :
  ∃ s' t, set demo_options no_throw "user" (VStr "Alice") demo_state_failing
            = (Throw PersistenceError, s', t)
          ∧ cache s' = <["user"%string := VStr "Alice"]> (cache demo_state_failing)
          ∧ idb s' = idb demo_state_failing
          ∧ forallb is_storage_event t = true
          ∧ get "user" s' = (Ok (VStr "Alice"), s', []).
Proof.
  apply (set_keeps_cache_when_persistence_fails demo_options no_throw
           "user" (VStr "Alice") demo_state_failing); reflexivity.
Defined.

Lemma set_then_get_witness :
  let run := set demo_options no_throw "user" (VStr "Alice") demo_state in
  run.1.1 = Ok tt ∧ get "user" run.1.2 = (Ok (VStr "Alice"), run.1.2, []).
Proof.
  intros run. split; [reflexivity|].
  apply (set_then_get demo_options no_throw "user" (VStr "Alice") demo_state run.1.2 run.2);
    reflexivity.
Defined.

(** C5 as the specification has it fails: on a store whose channel has been
    closed by [destroy()], validation, persistence and notification of
    [set("user", "Alice")] all go through, and the call rejects with what
    [postMessage] threw. *)
Lemma set_after_destroy_rejects :
  rejection demo_options "user" (VStr "Alice") = None
  ∧ storage_ok demo_state_destroyed = true
  ∧ quiet no_throw (VStr "Alice") (cache_get "user" demo_state_destroyed)
      (key_listeners "user" demo_state_destroyed) = true
  ∧ (destroy ;; set demo_options no_throw "user" (VStr "Alice")) demo_state
    = (Throw TransportError,
       mkState (<["user"%string := VStr "Alice"]> ∅) [] (Some true) true
               (<["user"%string := VStr "Alice"]> (idb demo_state)) [],
       [EvDbOpen; EvDbPut "user" (VStr "Alice");
        EvDispatch "store:my-app:user" (VStr "Alice") VUndefined]).
Proof. split_and!; reflexivity. Qed.

Lemma post_failure_rejects_the_call_witness :
  (set demo_options no_throw "user" (VStr "Alice") demo_state_destroyed).1.1
    = Throw TransportError
  ∧ (del demo_options no_throw "user" demo_state_destroyed).1.1 = Throw TransportError
  ∧ (clear demo_options no_throw demo_state_destroyed).1.1 = Throw TransportError.
Proof.
  destruct (post_failure_rejects_the_call demo_options no_throw demo_state_destroyed
              eq_refl eq_refl) as (Hset & Hdel & Hclear).
  rewrite (Hset "user"%string (VStr "Alice") eq_refl eq_refl).
  rewrite (Hdel "user"%string eq_refl).
  rewrite (Hclear eq_refl).
  split_and!; reflexivity.
Defined.

Lemma clear_resets_and_notifies_registry_witness :
  let run := clear demo_options no_throw demo_state in
  run.1.1 = Ok tt
  ∧ cache run.1.2 = ∅ ∧ idb run.1.2 = ∅ ∧ listeners run.1.2 = listeners demo_state
  ∧ run.2 =
      [EvDbClear;
       EvListener 1 VUndefined VUndefined;
       EvListener 2 VUndefined VUndefined;
       EvDispatch "store:my-app:user" VUndefined VUndefined;
       EvListener 3 VUndefined VUndefined;
       EvDispatch "store:my-app:age" VUndefined VUndefined;
       EvPost ClearMsg].
Proof.
  intros run. split; [reflexivity|].
  apply (clear_resets_and_notifies_registry demo_options no_throw
           demo_state run.1.2 run.2).
  reflexivity.
Defined.

(** C3 as the specification has it fails: the message says the old value was
    ["Alice"], the receiving cache holds ["Bob"], and the listeners and the
    event bus are told [(undefined, "Bob")]. *)
Lemma inbound_delete_ignores_message_oldValue :
  let run := onmessage demo_options no_throw (DeleteMsg "user" (VStr "Alice")) demo_state in
  run.2 =
    [EvListener 1 VUndefined (VStr "Bob");
     EvListener 2 VUndefined (VStr "Bob");
     EvDispatch "store:my-app:user" VUndefined (VStr "Bob")]
  ∧ run.2 ≠
    [EvListener 1 VUndefined (VStr "Alice");
     EvListener 2 VUndefined (VStr "Alice");
     EvDispatch "store:my-app:user" VUndefined (VStr "Alice")].
Proof. split; [reflexivity|discriminate]. Qed.

Lemma inbound_delete_notifies_cached_old_witness :
  onmessage demo_options no_throw (DeleteMsg "user" (VStr "Alice")) demo_state =
    (Ok tt, with_cache (delete "user"%string) demo_state,
     [EvListener 1 VUndefined (VStr "Bob");
      EvListener 2 VUndefined (VStr "Bob");
      EvDispatch "store:my-app:user" VUndefined (VStr "Bob")]).
Proof.
  apply (inbound_delete_notifies_cached_old demo_options no_throw
           "user" VUndefined (VStr "Alice") demo_state).
  reflexivity.
Defined.

Lemma inbound_message_is_never_reposted_witness :
  let run := onmessage demo_options no_throw
               (SetMsg "user" (VStr "Alice") (VStr "Carol")) demo_state in
  run.1.1 = Ok tt
  ∧ cache run.1.2 = <["user"%string := VStr "Alice"]> (cache demo_state)
  ∧ run.2 =
      [EvListener 1 (VStr "Alice") (VStr "Carol");
       EvListener 2 (VStr "Alice") (VStr "Carol");
       EvDispatch "store:my-app:user" (VStr "Alice") (VStr "Carol")]
  ∧ ∀ m, EvPost m ∉ run.2.
Proof.
  intros run.
  destruct (inbound_message_is_never_reposted demo_options no_throw
              (SetMsg "user" (VStr "Alice") (VStr "Carol")) demo_state)
    as (r & t & Hrun & Hpost & _ & Hquiet).
  destruct (Hquiet eq_refl) as [-> ->].
  subst run. rewrite Hrun. split_and!; try reflexivity.
  intros m Hin. apply list_elem_of_In in Hin. simpl in Hin.
  by decompose [or] Hin.
Defined.

Lemma inbound_set_of_undefined_is_ignored_witness :
  onmessage demo_options no_throw (SetMsg "user" VUndefined (VStr "Bob")) demo_state
  = (Ok tt, demo_state, []).
Proof.
  apply (inbound_set_of_undefined_is_ignored demo_options no_throw
           (SetMsg "user" VUndefined (VStr "Bob")) demo_state).
  - reflexivity.
  - left. reflexivity.
Defined.

(* ------------------------------------------------------------------------ *)
(** ** The read path and the registry on the example store *)

(** A miss on a fresh store opens the connection, reads the object store and
    fills the cache. *)
Example get_hydrates_cache :
  get "user" (createStore (<["user"%string := VStr "Bob"]> ∅) [])
  = (Ok (VStr "Bob"),
     mkState (<["user"%string := VStr "Bob"]> ∅) [] (Some true) false
             (<["user"%string := VStr "Bob"]> ∅) [],
     [EvDbOpen; EvDbGet "user"]).
Proof. reflexivity. Qed.

(** A miss on a key that was never written returns [undefined] and leaves the
    cache empty. *)
Example get_miss_leaves_cache :
  get "age" (createStore (<["user"%string := VStr "Bob"]> ∅) [])
  = (Ok VUndefined,
     mkState ∅ [] (Some true) false (<["user"%string := VStr "Bob"]> ∅) [],
     [EvDbOpen; EvDbGet "age"]).
Proof. reflexivity. Qed.

(** A failed open stays cached: the next operation fails without a request. *)
Example failed_open_is_sticky :
  (get "user" (createStore ∅ [true])).1.1 = Throw PersistenceError
  ∧ get "user" (get "user" (createStore ∅ [true])).1.2
    = (Throw PersistenceError, mkState ∅ [] (Some false) false ∅ [], []).
Proof. split; reflexivity. Qed.

(** [set(k, v); delete(k); get(k)] returns [undefined]. *)
Example set_delete_get :
  ((set demo_options no_throw "user" (VStr "Alice") ;;
    del demo_options no_throw "user" ;;
    get "user") demo_state).1.1 = Ok VUndefined.
Proof. reflexivity. Qed.

(** Registering the same listener twice under a key keeps one entry, and one
    call of the returned function removes it. *)
Example subscribe_twice_collapses :
  listeners (subscribe "age" 3 demo_state).1.2 = listeners demo_state
  ∧ listeners (unsubscribe "age" 3 demo_state).1.2 = [("user"%string, [1; 2])].
Proof. split; reflexivity. Qed.

(** [getAll] overwrites stale cache entries with what the object store
    holds. *)
Example getAll_refreshes_cache :
  let s := with_cache (insert "user"%string (VStr "stale")) demo_state in
  cache (getAll s).1.2 = <["user"%string := VStr "Bob"]> ∅.
Proof. reflexivity. Qed.

(* ------------------------------------------------------------------------ *)
(** ** The further statements at work on the example store *)

Lemma get_miss_hydrates_cache_witness :
  ∃ s', get "user" demo_state_new = (Ok (VStr "Bob"), s', [EvDbOpen; EvDbGet "user"])
        ∧ cache s' = <["user"%string := VStr "Bob"]> ∅
        ∧ idb s' = idb demo_state_new
        ∧ get "user" s' = (Ok (VStr "Bob"), s', []).
Proof.
  apply (get_miss_hydrates_cache "user" (VStr "Bob") demo_state_new);
    [reflexivity|reflexivity|reflexivity|discriminate].
Defined.

Lemma get_miss_of_absent_key_is_not_cached_witness :
  ∃ s', get "age" demo_state = (Ok VUndefined, s', [EvDbGet "age"])
        ∧ cache s' = cache demo_state
        ∧ idb s' = idb demo_state
        ∧ (request_ok s' = true ->
           get "age" s' = (Ok VUndefined, after_request s', [EvDbGet "age"])).
Proof.
  apply (get_miss_of_absent_key_is_not_cached "age" demo_state); reflexivity.
Defined.


Lemma failed_open_is_never_retried_witness :
  get "age" demo_state_unopened = (Throw PersistenceError, demo_state_unopened, [])
  ∧ getAll demo_state_unopened = (Throw PersistenceError, demo_state_unopened, [])
  ∧ set demo_options no_throw "user" (VStr "Alice") demo_state_unopened
    = (Throw PersistenceError,
       with_cache (insert "user"%string (VStr "Alice")) demo_state_unopened, [])
  ∧ del demo_options no_throw "user" demo_state_unopened
    = (Throw PersistenceError, with_cache (delete "user"%string) demo_state_unopened, [])
  ∧ clear demo_options no_throw demo_state_unopened
    = (Throw PersistenceError, with_cache (λ _, ∅) demo_state_unopened, []).
Proof.
  destruct (failed_open_is_never_retried demo_options no_throw demo_state_unopened eq_refl)
    as (Hget & HgetAll & Hset & Hdel & Hclear).
  split_and!.
  - by apply Hget.
  - exact HgetAll.
  - by apply Hset.
  - apply Hdel.
  - exact Hclear.
Defined.

Lemma del_removes_and_notifies_witness :
  let run := del demo_options no_throw "user" demo_state in
  run.1.1 = Ok tt
  ∧ cache run.1.2 = ∅ ∧ idb run.1.2 = ∅
  ∧ run.2 =
      [EvDbDelete "user";
       EvListener 1 VUndefined (VStr "Bob");
       EvListener 2 VUndefined (VStr "Bob");
       EvDispatch "store:my-app:user" VUndefined (VStr "Bob");
       EvPost (DeleteMsg "user" (VStr "Bob"))].
Proof.
  intros run. split; [reflexivity|].
  destruct (del_removes_and_notifies demo_options no_throw "user" demo_state
              run.1.2 run.2 eq_refl) as (Hc & Hi & _ & Ht).
  split_and!.
  - by rewrite Hc.
  - by rewrite Hi.
  - by rewrite Ht.
Defined.

Lemma del_then_get_witness :
  let run := del demo_options no_throw "user" demo_state in
  get "user" run.1.2 = (Ok VUndefined, after_request run.1.2, [EvDbGet "user"]).
Proof.
  intros run.
  apply (del_then_get demo_options no_throw "user" demo_state run.1.2 run.2);
    reflexivity.
Defined.

Lemma failed_delete_and_clear_keep_cache_change_witness :
  (∃ s' t, del demo_options no_throw "user" demo_state_failing
             = (Throw PersistenceError, s', t)
           ∧ cache s' = ∅
           ∧ idb s' = idb demo_state_failing
           ∧ (get "user" s').1.1 = Ok (VStr "Bob"))
  ∧ (∃ s' t, clear demo_options no_throw demo_state_failing
               = (Throw PersistenceError, s', t)
             ∧ cache s' = ∅ ∧ idb s' = idb demo_state_failing).
Proof.
  destruct (failed_delete_and_clear_keep_cache_change demo_options no_throw
              demo_state_failing eq_refl) as [Hdel Hclear].
  split.
  - destruct (Hdel "user"%string) as (s' & t & Hrun & Hc & Hi & _ & _).
    exists s', t. split_and!; try done.
    assert (s' = (del demo_options no_throw "user" demo_state_failing).1.2) as ->
      by by rewrite Hrun.
    reflexivity.
  - destruct Hclear as (s' & t & Hrun & Hc & Hi & _). by exists s', t.
Defined.

Lemma clear_then_getAll_witness :
  let run := clear demo_options no_throw demo_state in
  ∃ s'', getAll run.1.2 = (Ok ∅, s'', [EvDbGetAll]) ∧ cache s'' = ∅ ∧ idb s'' = ∅.
Proof.
  intros run.
  apply (clear_then_getAll demo_options no_throw demo_state run.1.2 run.2); reflexivity.
Defined.

Lemma throwing_listener_cuts_notification_witness :
  let run := set demo_options second_throws "user" (VStr "Alice")
               (with_listeners (JsMap.set "user"%string [1; 2; 3]) demo_state) in
  run.1.1 = Throw (ListenerError 2)
  ∧ cache run.1.2 !! "user"%string = Some (VStr "Alice")
  ∧ idb run.1.2 !! "user"%string = Some (VStr "Alice")
  ∧ run.2 =
      [EvDbPut "user" (VStr "Alice");
       EvListener 1 (VStr "Alice") (VStr "Bob");
       EvListener 2 (VStr "Alice") (VStr "Bob")].
Proof.
  intros run.
  destruct (throwing_listener_cuts_notification demo_options second_throws
              "user" (VStr "Alice")
              (with_listeners (JsMap.set "user"%string [1; 2; 3]) demo_state)
              eq_refl eq_refl eq_refl)
    as (before & l & after & Hsplit & Hquiet & Hthrow & Hrun).
  subst run. split_and!; reflexivity.
Defined.

Lemma store_after_destroy_witness :
  destroy demo_state = (Ok tt, after_destroy demo_state, [])
  ∧ (∃ s', get "user" (after_destroy demo_state)
             = (Ok (VStr "Bob"), s', [EvDbOpen; EvDbGet "user"]))
  ∧ (∃ s', set demo_options no_throw "user" (VStr "Alice") (after_destroy demo_state)
             = (Throw TransportError, s',
                [EvDbOpen; EvDbPut "user" (VStr "Alice");
                 EvDispatch "store:my-app:user" (VStr "Alice") VUndefined])
           ∧ idb s' = <["user"%string := VStr "Alice"]> (idb demo_state))
  ∧ unsubscribe "user" 1 (after_destroy demo_state)
    = (Ok tt, after_destroy demo_state, []).
Proof.
  destruct (store_after_destroy demo_options no_throw demo_state eq_refl)
    as (Hdestroy & _ & Hget & Hset & Hunsub).
  split_and!.
  - exact Hdestroy.
  - apply (Hget "user"%string (VStr "Bob")); [reflexivity|discriminate].
  - destruct (Hset "user"%string (VStr "Alice") eq_refl) as (s' & Hrun & _ & Hi).
    by exists s'.
  - apply Hunsub.
Defined.

Lemma set_reaches_other_context_witness :
  let sent := set demo_options no_throw "user" (VStr "Alice") demo_state_new in
  ∃ m receiver',
    last sent.2 = Some (EvPost m)
    ∧ onmessage demo_options no_throw m demo_state =
        (Ok tt, receiver',
         [EvListener 1 (VStr "Alice") VUndefined;
          EvListener 2 (VStr "Alice") VUndefined;
          EvDispatch "store:my-app:user" (VStr "Alice") VUndefined])
    ∧ get "user" receiver' = (Ok (VStr "Alice"), receiver', [])
    ∧ idb receiver' = idb demo_state.
Proof.
  intros sent.
  apply (set_reaches_other_context demo_options no_throw "user" (VStr "Alice")
           demo_state_new sent.1.2 sent.2 demo_state);
    [reflexivity|discriminate|reflexivity].
Defined.

Lemma delete_and_clear_reach_other_context_witness :
  (∃ m, last (del demo_options no_throw "user" demo_state_new).2 = Some (EvPost m)
        ∧ onmessage demo_options no_throw m demo_state =
            (Ok tt, with_cache (delete "user"%string) demo_state,
             [EvListener 1 VUndefined (VStr "Bob");
              EvListener 2 VUndefined (VStr "Bob");
              EvDispatch "store:my-app:user" VUndefined (VStr "Bob")]))
  ∧ (∃ m, last (clear demo_options no_throw demo_state_new).2 = Some (EvPost m)
          ∧ onmessage demo_options no_throw m demo_state =
              (Ok tt, with_cache (λ _, ∅) demo_state,
               [EvListener 1 VUndefined VUndefined;
                EvListener 2 VUndefined VUndefined;
                EvDispatch "store:my-app:user" VUndefined VUndefined;
                EvListener 3 VUndefined VUndefined;
                EvDispatch "store:my-app:age" VUndefined VUndefined])).
Proof.
  destruct (delete_and_clear_reach_other_context demo_options no_throw demo_state)
    as [Hdel Hclear].
  split.
  - apply (Hdel "user"%string demo_state_new
             (del demo_options no_throw "user" demo_state_new).1.2);
      reflexivity.
  - apply (Hclear demo_state_new (clear demo_options no_throw demo_state_new).1.2);
      reflexivity.
Defined.

Lemma inbound_set_skips_validator_witness :
  set demo_options no_throw "username" (VNum 12345) demo_state
  = (Throw (ValidationError "username must be a string"), demo_state, [])
  ∧ ∃ s', onmessage demo_options no_throw
            (SetMsg "username" (VNum 12345) VUndefined) demo_state
          = (Ok tt, s', notification demo_options "username" (VNum 12345) VUndefined demo_state)
        ∧ cache s' = <["username"%string := VNum 12345]> (cache demo_state)
        ∧ get "username" s' = (Ok (VNum 12345), s', []).
Proof.
  apply (inbound_set_skips_validator demo_options no_throw
           "username" (VNum 12345) VUndefined "username must be a string" demo_state);
    [reflexivity|discriminate|reflexivity].
Defined.

Lemma database_is_opened_at_most_once_witness :
  let cs := [CGet "user"; CSet "age" (VNum 30); CMessage ClearMsg;
             CGetAll; CDelete "user"; CClear] in
  opens (run demo_options no_throw cs demo_state_new).2 ≤ 1
  ∧ opens (run demo_options no_throw cs demo_state).2 = 0.
Proof.
  intros cs. split.
  - apply (database_is_opened_at_most_once demo_options no_throw cs demo_state_new).
    reflexivity.
  - apply (database_is_opened_at_most_once demo_options no_throw cs demo_state);
      [reflexivity|discriminate].
Defined.

Lemma registry_shape_is_kept_witness :
  registry_wf
    (listeners
       (run demo_options no_throw
          [CSubscribe "user" 1; CSubscribe "user" 1; CSubscribe "age" 2;
           CUnsubscribe "user" 1; CSet "age" (VNum 30); CUnsubscribe "user" 1]
          demo_state_new).1).
Proof.
  apply (registry_shape_is_kept demo_options no_throw).
  split; [apply NoDup_nil_2|apply Forall_nil_2].
Defined.

Lemma subscribe_appends_witness :
  ∃ s', subscribe "user" 5 demo_state = (Ok (unsubscribe "user" 5), s', [])
        ∧ key_listeners "user" s' = [1; 2; 5]
        ∧ key_listeners "age" s' = [3].
Proof.
  assert (¬ subscribed "user" 5 demo_state) as Hnot.
  { intros (ls & [= <-] & Hin). apply list_elem_of_In in Hin. simpl in Hin.
    by decompose [or] Hin. }
  destruct (subscribe_appends "user" 5 demo_state Hnot) as (s' & Hrun & Hkey & Hother & _).
  exists s'. split_and!.
  - exact Hrun.
  - by rewrite Hkey.
  - by rewrite Hother.
Defined.

Lemma subscribe_unsubscribe_restores_witness :
  ∃ unsub s1,
    subscribe "user" 5 demo_state = (Ok unsub, s1, [])
    ∧ unsub s1 = (Ok tt, demo_state, []).
Proof.
  apply (subscribe_unsubscribe_restores "user" 5 demo_state).
  - split.
    + apply (NoDup_cons_2 "user"%string); [|apply NoDup_singleton].
      by intros ?%list_elem_of_singleton.
    + repeat constructor; simpl; try discriminate.
      * by intros ?%list_elem_of_singleton.
      * by intros ?%elem_of_nil.
      * by intros ?%elem_of_nil.
  - intros (ls & [= <-] & Hin). apply list_elem_of_In in Hin. simpl in Hin.
    by decompose [or] Hin.
Defined.

Lemma cache_agrees_with_store_witness :
  let cs := [CGet "user"; CSet "age" (VNum 30); CSet "username" (VNum 1);
             CDestroy; CSet "user" (VStr "Alice"); CGetAll; CDelete "age"] in
  let s' := (run demo_options second_throws cs demo_state).1 in
  healthy s' ∧ cache s' ⊆ idb s'
  ∧ (∀ key value, cache s' !! key = Some value -> idb s' !! key = Some value).
Proof.
  intros cs s'.
  apply (cache_agrees_with_store demo_options second_throws cs demo_state).
  - split; [discriminate|constructor].
  - reflexivity.
  - reflexivity.
Defined.

Lemma createEventName_inj_key_witness :
  createEventName "my-app" "user" ≠ createEventName "my-app" "username".
Proof.
  apply (createEventName_inj_key "my-app" "user" "username"). discriminate.
Defined.

Lemma demo_window_wf : window_wf demo_window.
Proof. intros name h [= _ ->]%list_elem_of_singleton. simpl. lia. Qed.


Lemma standalone_subscriptions_do_not_merge_witness :
  let '(unsub1, w1) := subscribeToKey "my-app" "user" 9 demo_window in
  let '(unsub2, w2) := subscribeToKey "my-app" "user" 9 w1 in
  dispatchEvent "store:my-app:user" (VStr "Alice") VUndefined w2 =
    [EvListener 7 (VStr "Alice") VUndefined;
     EvListener 9 (VStr "Alice") VUndefined;
     EvListener 9 (VStr "Alice") VUndefined]
  ∧ dispatchEvent "store:my-app:user" (VStr "Alice") VUndefined (unsub1 w2) =
      [EvListener 7 (VStr "Alice") VUndefined; EvListener 9 (VStr "Alice") VUndefined]
  ∧ registered (unsub2 (unsub1 w2)) = registered demo_window.
Proof.
  pose proof demo_window_wf as Hwf.
  apply (standalone_subscriptions_do_not_merge "my-app" "user" 9
           (VStr "Alice") VUndefined demo_window Hwf).
Defined.

Lemma standalone_unsubscribe_is_exact_witness :
  let '(unsub, w') := subscribeToKey "my-app" "user" 9 demo_window in
  registered (unsub w') = registered demo_window
  ∧ unsub (unsub w') = unsub w'.
Proof.
  pose proof demo_window_wf as Hwf.
  pose proof (standalone_unsubscribe_is_exact "my-app" "user" 9 demo_window Hwf) as H.
  destruct (subscribeToKey "my-app" "user" 9 demo_window) as [unsub w'].
  destruct H as [Hback Hall]. split; [exact Hback|]. apply (Hall w').
Defined.

Lemma consecutive_sets_chain_old_value_witness :
  let first := set demo_options no_throw "user" (VStr "Alice") demo_state in
  let second := set demo_options no_throw "user" (VStr "Carol") first.1.2 in
  second.2 =
    [EvDbPut "user" (VStr "Carol");
     EvListener 1 (VStr "Carol") (VStr "Alice");
     EvListener 2 (VStr "Carol") (VStr "Alice");
     EvDispatch "store:my-app:user" (VStr "Carol") (VStr "Alice");
     EvPost (SetMsg "user" (VStr "Carol") (VStr "Alice"))]
  ∧ get "user" second.1.2 = (Ok (VStr "Carol"), second.1.2, []).
Proof.
  intros first second.
  apply (consecutive_sets_chain_old_value demo_options no_throw
           "user" (VStr "Alice") (VStr "Carol")
           demo_state first.1.2 first.2 second.1.2 second.2);
    reflexivity.
Defined.
